(** * react-hook-weather: the [useWeather] hook

    A shallow embedding of [src/useWeather.ts]: the configuration interface
    [OpenMeteoForecastConfig] over JavaScript objects, the part of React's
    hook runtime the hook calls ([useState], [useCallback]), the hook itself
    and the async callback it defines, followed by the properties of the hook
    that the repository's specification talks about. *)

From Stdlib Require Import PrimFloat ZArith.
From stdpp Require Import base option list gmap strings.

Open Scope string_scope.

#[local] Set Warnings "-inexact-float".

(** ** JavaScript values and objects *)

Module Js.

(** Object identity: a reference into the heap. *)
Definition loc := positive.

(** The values a configuration property can hold; a [number] is an IEEE 754
    binary64, as in JavaScript. *)
Inductive value :=
| VUndefined
| VNumber (x : float)
| VString (s : string)
| VBoolean (b : bool)
| VObject (l : loc).

(** An object's own properties, in enumeration (insertion) order. *)
Definition object := list (string * value).

(** [o[k]]: the property's value, [undefined] when the object has none. *)
Fixpoint get (k : string) (o : object) : value :=
  match o with
  | [] => VUndefined
  | (k', v) :: rest => if decide (k = k') then v else get k rest
  end.

(** [o[k] = v]: overwrite in place, or append a new property. *)
Fixpoint setProp (k : string) (v : value) (o : object) : object :=
  match o with
  | [] => [(k, v)]
  | (k', v') :: rest =>
      if decide (k = k') then (k, v) :: rest else (k', v') :: setProp k v rest
  end.

(** [Object.is]: SameValue. On numbers it tells [+0] from [-0] and equates
    [NaN] with itself, which is Leibniz equality of binary64 values; objects
    are compared by identity, never by content. *)
Definition Object_is (a b : value) : bool :=
  match a, b with
  | VUndefined, VUndefined => true
  | VNumber x, VNumber y => PrimFloat.Leibniz.eqb x y
  | VString s, VString t => bool_decide (s = t)
  | VBoolean p, VBoolean q => bool_decide (p = q)
  | VObject l, VObject m => bool_decide (l = m)
  | _, _ => false
  end.

(** What a JavaScript call does: return a value or throw. *)
Inductive outcome (A : Type) :=
| Normal (a : A)
| Throw (message : string).
Arguments Normal {A} a.
Arguments Throw {A} message.

(** How a promise settles. *)
Inductive settled (A : Type) :=
| Fulfilled (a : A)
| Rejected (reason : string).
Arguments Fulfilled {A} a.
Arguments Rejected {A} reason.

End Js.

Import Js.

(** ** The configuration interface (useWeather.ts, lines 9-152) *)

Module Config.

(** The TypeScript type of a property. *)
Inductive fieldType :=
| TNumber
| TString
| TBoolean
| TLiteral (alternatives : list string).

Record field := Field {
  name : string;
  type : fieldType;
  optional : bool;
  (** the [@default] tag of the property's doc comment *)
  default : option value
}.

Definition OpenMeteoWeatherModel : fieldType :=
  TLiteral ["auto"; "ECMWF_IFS"; "GFS"; "GEM"; "ICON"; "METEO_FRANCE";
            "FMI_HIRLAM"; "JMA_SEAM"; "METNO_NORDIC"].

(** [interface OpenMeteoForecastConfig], property by property. *)
Definition OpenMeteoForecastConfig : list field :=
  [ Field "latitude" TNumber false None;
    Field "longitude" TNumber false None;
    Field "hourly" TString true None;
    Field "daily" TString true None;
    Field "current_weather" TBoolean true (Some (VBoolean false));
    Field "temperature_unit" (TLiteral ["celsius"; "fahrenheit"]) true
          (Some (VString "celsius"));
    Field "windspeed_unit" (TLiteral ["kmh"; "mph"; "ms"; "kn"]) true
          (Some (VString "kmh"));
    Field "precipitation_unit" (TLiteral ["mm"; "inch"]) true
          (Some (VString "mm"));
    Field "timezone" TString true (Some (VString "auto"));
    Field "timeformat" (TLiteral ["iso8601"; "unixtime"]) true
          (Some (VString "iso8601"));
    Field "past_days" TNumber true (Some (VNumber 0%float));
    Field "forecast_days" TNumber true (Some (VNumber 7%float));
    Field "forecast_hours" TNumber true None;
    Field "forecast_minutes" TNumber true None;
    Field "start_date" TString true None;
    Field "end_date" TString true None;
    Field "start_hour" TString true None;
    Field "end_hour" TString true None;
    Field "models" OpenMeteoWeatherModel true (Some (VString "auto"));
    Field "cell_selection" (TLiteral ["nearest"; "land"]) true
          (Some (VString "nearest")) ].

Definition inhabits (t : fieldType) (v : value) : bool :=
  match t, v with
  | TNumber, VNumber _ => true
  | TString, VString _ => true
  | TBoolean, VBoolean _ => true
  | TLiteral alts, VString s => bool_decide (s ∈ alts)
  | _, _ => false
  end.

Definition checkField (o : object) (f : field) : bool :=
  match get (name f) o with
  | VUndefined => optional f
  | v => inhabits (type f) v
  end.

(** The object is assignable to [OpenMeteoForecastConfig]: every declared
    property has its declared type, and only optional ones are missing. *)
Definition conforms (o : object) : bool :=
  forallb (checkField o) OpenMeteoForecastConfig.

(** The documented default of a property, if its doc comment gives one. *)
Definition documentedDefault (k : string) : option value :=
  f ← List.find (λ f, bool_decide (name f = k)) OpenMeteoForecastConfig;
  default f.

(** The [@range] tags of [latitude] and [longitude]. *)
Definition inRange (lo hi : float) (v : value) : bool :=
  match v with
  | VNumber x => PrimFloat.leb lo x && PrimFloat.leb x hi
  | _ => false
  end.

Definition provided (k : string) (o : object) : bool :=
  match get k o with VUndefined => false | _ => true end.

(** The constraints the interface documents but no type expresses: the two
    coordinate ranges, and "at least one of [hourly], [daily], or
    [current_weather] must be provided". *)
Definition withinDocumentedConstraints (o : object) : bool :=
  inRange (-90)%float 90%float (get "latitude" o)
  && inRange (-180)%float 180%float (get "longitude" o)
  && (provided "hourly" o || provided "daily" o || provided "current_weather" o).

(** Two objects agree on every property, whatever their enumeration order. *)
Definition fieldwiseEqual (o1 o2 : object) : Prop :=
  ∀ k, get k o1 = get k o2.

End Config.

(** ** The world the hook runs in *)

(** The payload of the remote API ([WeatherApiResponse]) is opaque to the
    hook. *)
Inductive WeatherApiResponse := ApiResponse (body : string).

(** The type argument of [useState<WeatherApiResponse[]>()]: the state is a
    response array or [undefined]. *)
Definition ResponseState := option (list WeatherApiResponse).

(** The state setter [useState] hands out: bound to one state cell of one
    mounted component. *)
Record Setter := { fiber : nat; slot : nat }.

(** The body of an async function, as the tree of its effects. The call of
    [fetchWeatherApi] (package [openmeteo]) is an effect of the body: the
    call is recorded, and how it settles is for the environment to say. *)
Inductive Async :=
| Return
| AwaitFetch (url : string) (params : loc)
             (continuation : list WeatherApiResponse → Async)
| SetState (setter : Setter) (next : ResponseState) (continuation : Async).

(** A hook's memory cell in a mounted component (React's [memoizedState]). *)
Inductive HookCell :=
| StateCell (state : ResponseState)
| MemoCell (callback : Async) (deps : list value).

(** One call of an async function: suspended at an [await] on a call of
    [fetchWeatherApi], or settled. *)
Inductive Task :=
| Awaiting (call : nat) (continuation : list WeatherApiResponse → Async)
| Done (result : settled unit).

Record World := {
  (** JavaScript objects, by identity *)
  heap : gmap loc object;
  (** [window.localStorage] *)
  localStorage : gmap string string;
  (** hook cells of the mounted components *)
  fibers : gmap nat (list HookCell);
  (** every call [fetchWeatherApi(url, params)] made so far, oldest first *)
  fetchCalls : list (string * loc);
  (** every call of an async function made so far, oldest first *)
  tasks : list Task;
  (** milliseconds since the epoch *)
  clock : Z
}.

Definition withFibers (f : gmap nat (list HookCell)) (w : World) : World :=
  {| heap := heap w; localStorage := localStorage w; fibers := f;
     fetchCalls := fetchCalls w; tasks := tasks w; clock := clock w |}.

Definition withStorage (s : gmap string string) (w : World) : World :=
  {| heap := heap w; localStorage := s; fibers := fibers w;
     fetchCalls := fetchCalls w; tasks := tasks w; clock := clock w |}.

Definition withTask (tid : nat) (t : Task) (w : World) : World :=
  {| heap := heap w; localStorage := localStorage w; fibers := fibers w;
     fetchCalls := fetchCalls w;
     tasks := if decide (tid < length (tasks w)) then <[tid := t]> (tasks w)
              else tasks w ++ [t];
     clock := clock w |}.

(** ** React's hook runtime, as far as the hook uses it *)

(** React is a dependency of the repository, not part of it: the definitions
    of this module follow React's documented contract for [useState] and
    [useCallback] (a hook's cell is found by its position in the component's
    hook list; a callback is replaced when a dependency changes under
    [Object.is]). *)
Module React.

(** A render in progress: the component being rendered, the cells its last
    render left ([None] while mounting) and the cells of this render. *)
Record RenderCtx := {
  self : nat;
  previous : option (list HookCell);
  work : list HookCell
}.

Record Machine := { ctx : RenderCtx; world : World }.

(** A computation that runs during a render. *)
Definition M (A : Type) := Machine → outcome A * Machine.

Definition ret {A} (a : A) : M A := λ m, (Normal a, m).

Definition bind {A B} (c : M A) (k : A → M B) : M B :=
  λ m, match c m with
       | (Normal a, m') => k a m'
       | (Throw e, m') => (Throw e, m')
       end.

#[export] Instance M_ret : MRet M := @ret.
#[export] Instance M_bind : MBind M := λ A B k c, bind c k.

Definition push (c : HookCell) (m : Machine) : Machine :=
  {| ctx := {| self := self (ctx m); previous := previous (ctx m);
               work := work (ctx m) ++ [c] |};
     world := world m |}.

(** [areHookInputsEqual]: the dependencies are compared pairwise with
    [Object.is], as far as both arrays reach. *)
Fixpoint areHookInputsEqual (nextDeps prevDeps : list value) : bool :=
  match nextDeps, prevDeps with
  | a :: nextDeps', b :: prevDeps' =>
      Object_is a b && areHookInputsEqual nextDeps' prevDeps'
  | _, _ => true
  end.

#[global] Arguments areHookInputsEqual : simpl never.

Definition hookOrderChanged : string :=
  "Rendered more hooks than during the previous render.".

(** [useState(initial)]: the cell's state and its setter. Mounting creates
    the cell; an update reads the cell the previous render left in the same
    position. *)
Definition useState (initial : ResponseState) : M (ResponseState * Setter) :=
  λ m,
    let i := length (work (ctx m)) in
    let setter := {| fiber := self (ctx m); slot := i |} in
    match previous (ctx m) with
    | None => (Normal (initial, setter), push (StateCell initial) m)
    | Some cells =>
        match cells !! i with
        | Some (StateCell s) => (Normal (s, setter), push (StateCell s) m)
        | _ => (Throw hookOrderChanged, m)
        end
    end.

(** [useCallback(callback, deps)]: the callback of the previous render while
    the dependencies are unchanged, the new one otherwise. The callback is
    memoised and returned; it is not called. *)
Definition useCallback (callback : Async) (deps : list value) : M Async :=
  λ m,
    let i := length (work (ctx m)) in
    match previous (ctx m) with
    | None => (Normal callback, push (MemoCell callback deps) m)
    | Some cells =>
        match cells !! i with
        | Some (MemoCell prevCallback prevDeps) =>
            if areHookInputsEqual deps prevDeps
            then (Normal prevCallback, push (MemoCell prevCallback prevDeps) m)
            else (Normal callback, push (MemoCell callback deps) m)
        | _ => (Throw hookOrderChanged, m)
        end
    end.

(** [renderWithHooks]: run a component's hooks against its fiber and commit
    the cells when the render returns; a render that throws commits
    nothing. *)
Definition renderWithHooks {A} (fid : nat) (component : M A) (w : World)
  : outcome A * World :=
  let start := {| ctx := {| self := fid; previous := fibers w !! fid;
                            work := [] |};
                  world := w |} in
  match component start with
  | (Normal a, m) =>
      (Normal a, withFibers (<[fid := work (ctx m)]> (fibers (world m))) (world m))
  | (Throw e, m) => (Throw e, world m)
  end.

(** [setState(next)] on a dispatched setter: the cell takes the new state
    (read by the next render); nothing happens when the component is no
    longer mounted. *)
Definition dispatchSetState (st : Setter) (next : ResponseState) (w : World)
  : World :=
  withFibers (alter (λ cells, <[slot st := StateCell next]> cells)
                    (fiber st) (fibers w)) w.

End React.

Import React.

(** ** The hook (useWeather.ts, lines 192-201) *)

Record HookResult := { response : ResponseState }.

Definition url : string := "https://api.open-meteo.com/v1/forecast".

(** The async arrow function passed to [useCallback] (lines 195-198):
    await the fetch, then store its result. *)
Definition fetchCallback (url : string) (config : loc) (setResponse : Setter)
  : Async :=
  AwaitFetch url config (λ result,
  SetState setResponse (Some result)
  Return).

Definition useWeather (config : loc) : M HookResult :=
  '(response, setResponse) ← useState None;
  _ ← useCallback (fetchCallback url config setResponse)
                  [VString url; VObject config];
  mret {| response := response |}.

(** ** Running async functions *)

(** Run the body of task [tid] up to its next [await], or to its end. A call
    of [fetchWeatherApi] is recorded and the task parks on it. *)
Fixpoint run (tid : nat) (body : Async) (w : World) : World :=
  match body with
  | Return => withTask tid (Done (Fulfilled ())) w
  | SetState st next k => run tid k (dispatchSetState st next w)
  | AwaitFetch u params k =>
      withTask tid (Awaiting (length (fetchCalls w)) k)
        {| heap := heap w; localStorage := localStorage w; fibers := fibers w;
           fetchCalls := fetchCalls w ++ [(u, params)]; tasks := tasks w;
           clock := clock w |}
  end.

(** Call an async function: a new task. *)
Definition invoke (body : Async) (w : World) : World :=
  run (length (tasks w)) body w.

(** The fetch a task awaits settles: the task continues with the result, or,
    the body having no [try], its own promise rejects with the same reason. *)
Definition settle (tid : nat) (result : settled (list WeatherApiResponse))
  (w : World) : World :=
  match tasks w !! tid with
  | Some (Awaiting _ k) =>
      match result with
      | Fulfilled r => run tid (k r) w
      | Rejected e => withTask tid (Done (Rejected e)) w
      end
  | _ => w
  end.

(** The fetches that are in flight: awaited and not yet settled. *)
Definition outstanding (w : World) : list nat :=
  omap (λ t, match t with Awaiting c _ => Some c | Done _ => None end) (tasks w).

(** The callback a mounted [useWeather] has memoised, and its dependencies. *)
Definition memoised (fid : nat) (w : World) : option (Async * list value) :=
  cells ← fibers w !! fid;
  match cells !! 1 with
  | Some (MemoCell cb deps) => Some (cb, deps)
  | _ => None
  end.

(** ** An application that uses the hook *)

(** What can happen while components that call [useWeather] are on screen.
    The hook returns [{ response }] only, so no application code holds the
    callback: nothing here calls it. *)
Inductive Event :=
| Render (fid : nat) (config : loc)
| Unmount (fid : nat)
| Allocate (l : loc) (o : object)
| StorageSet (key item : string)
| StorageRemove (key : string)
| Tick (ms : Z)
| Settle (tid : nat) (result : settled (list WeatherApiResponse)).

Definition step (w : World) (e : Event) : World :=
  match e with
  | Render fid config => (renderWithHooks fid (useWeather config) w).2
  | Unmount fid => withFibers (delete fid (fibers w)) w
  | Allocate l o =>
      {| heap := <[l := o]> (heap w); localStorage := localStorage w;
         fibers := fibers w; fetchCalls := fetchCalls w; tasks := tasks w;
         clock := clock w |}
  | StorageSet k v => withStorage (<[k := v]> (localStorage w)) w
  | StorageRemove k => withStorage (delete k (localStorage w)) w
  | Tick ms =>
      {| heap := heap w; localStorage := localStorage w; fibers := fibers w;
         fetchCalls := fetchCalls w; tasks := tasks w; clock := (clock w + ms)%Z |}
  | Settle tid result => settle tid result w
  end.

Definition exec (events : list Event) (w : World) : World :=
  fold_left step events w.

(** The page has just loaded: nothing is mounted, nothing was fetched. The
    heap, the local storage (which outlives the page) and the time are
    whatever they are. *)
Definition boot (h : gmap loc object) (storage : gmap string string) (now : Z)
  : World :=
  {| heap := h; localStorage := storage; fibers := ∅; fetchCalls := [];
     tasks := []; clock := now |}.

(** The query states the specification names. *)
Inductive QueryState :=
| Idle
| Loading
| Ready (data : list WeatherApiResponse)
| Failed (reason : string).

(** The state a hook result stands for, as the documentation's example
    component reads it: ["Loading..."] while [response] is falsy, the data
    otherwise. *)
Definition observe (r : HookResult) : QueryState :=
  match response r with
  | None => Loading
  | Some data => Ready data
  end.

(** Call the callback a mounted hook has memoised, if there is one. *)
Definition invokeMemoised (fid : nat) (w : World) : World :=
  match memoised fid w with
  | Some (cb, _) => invoke cb w
  | None => w
  end.

(** The same application with one more thing that can happen: something
    calls the callback a component's hook has memoised. No code of the
    repository does; what the callback does when called is stated on these
    steps. *)
Inductive Step :=
| Does (e : Event)
| Calls (fid : nat).

Definition stepAny (w : World) (s : Step) : World :=
  match s with
  | Does e => step w e
  | Calls fid => invokeMemoised fid w
  end.

Definition execAny (steps : list Step) (w : World) : World :=
  fold_left stepAny steps w.

(** ** Auxiliary notions for the properties *)

Definition setterOf (fid : nat) : Setter := {| fiber := fid; slot := 0 |}.

(** The cells a mounted [useWeather] owns: its state, and the callback
    memoised for the configuration object [c]. *)
Definition hookCells (fid : nat) (s : ResponseState) (c : loc) : list HookCell :=
  [StateCell s;
   MemoCell (fetchCallback url c (setterOf fid)) [VString url; VObject c]].

(** The state a component's hook holds; [undefined] before it is mounted. *)
Definition stateOf (fid : nat) (w : World) : ResponseState :=
  match fibers w !! fid with
  | Some (StateCell s :: _) => s
  | _ => None
  end.

(** What the callback does after its [await]. *)
Definition afterFetch (st : Setter) : list WeatherApiResponse → Async :=
  λ result, SetState st (Some result) Return.

(** Mount (or re-render) [useWeather config] in each of the components. *)
Definition renderEach (config : loc) (callers : list nat) (w : World)
  : World :=
  exec (map (λ fid, Render fid config) callers) w.

(** Call the memoised callback of each of the components, in turn, before
    any fetch settles. *)
Definition invokeEach (callers : list nat) (w : World) : World :=
  fold_left (λ w fid, invokeMemoised fid w) callers w.

(** The tasks those calls leave: each awaits a fetch of its own. *)
Fixpoint waiting (call : nat) (callers : list nat) : list Task :=
  match callers with
  | [] => []
  | fid :: callers' =>
      Awaiting call (afterFetch (setterOf fid)) :: waiting (S call) callers'
  end.

(** What every world the application as written can reach looks like: no
    fetch was made, no async function was called, and every mounted hook
    still holds its initial state. *)
Record idle (w : World) : Prop := {
  idle_fetchCalls : fetchCalls w = [];
  idle_tasks : tasks w = [];
  idle_fibers : ∀ fid cells,
    fibers w !! fid = Some cells → ∃ c, cells = hookCells fid None c
}.

(** What holds of every world, also when callbacks are called: a mounted
    component holds the cells of [useWeather], and a suspended task is a call
    of some component's callback, waiting for a fetch that was made. *)
Record coherent (w : World) : Prop := {
  coherent_fibers : ∀ fid cells,
    fibers w !! fid = Some cells → ∃ s c, cells = hookCells fid s c;
  coherent_tasks : ∀ tid call k,
    tasks w !! tid = Some (Awaiting call k) →
    (∃ fid, k = afterFetch (setterOf fid)) ∧ call < length (fetchCalls w)
}.

(** What the application sees of a call of the hook. *)
Definition observed (o : outcome HookResult) : option QueryState :=
  match o with
  | Normal r => Some (observe r)
  | Throw _ => None
  end.

(** The dependency list under which a call [useWeather(config)] leaves its
    callback memoised: the only key the hook derives from a configuration. *)
Definition memoKey (fid : nat) (config : loc) (w : World)
  : option (list value) :=
  snd <$> memoised fid (renderWithHooks fid (useWeather config) w).2.

(** Whether React takes two such keys for the same. *)
Definition sameKey (k1 k2 : option (list value)) : bool :=
  match k1, k2 with
  | Some deps1, Some deps2 => areHookInputsEqual deps1 deps2
  | _, _ => false
  end.

(** ** Sample configurations *)

Module Sample.

(** The configuration of the specification's scenario. *)
Definition berlin : object :=
  [("latitude", VNumber 52.52%float); ("longitude", VNumber 13.405%float);
   ("current_weather", VBoolean true)].

(** The same properties, written in another order. *)
Definition berlinReordered : object :=
  [("current_weather", VBoolean true); ("longitude", VNumber 13.405%float);
   ("latitude", VNumber 52.52%float)].

(** [berlin] with a property set to its documented default. *)
Definition berlinCelsius : object :=
  setProp "temperature_unit" (VString "celsius") berlin.

(** A latitude beyond the pole. *)
Definition beyondThePole : object :=
  [("latitude", VNumber 91%float); ("longitude", VNumber 13.405%float);
   ("current_weather", VBoolean true)].

(** Coordinates only: none of [hourly], [daily], [current_weather]. *)
Definition coordinatesOnly : object :=
  [("latitude", VNumber 52.52%float); ("longitude", VNumber 13.405%float)].

(** Five and twenty minutes, in milliseconds. *)
Definition minutes (n : Z) : Z := (n * 60000)%Z.

End Sample.

(** ** Notions for the properties of traces *)

(** Render one component again and again, with a configuration each time. *)
Definition rerender (fid : nat) (configs : list loc) (w : World) : World :=
  exec (map (Render fid) configs) w.

(** How often a callback was called. *)
Fixpoint callCount (steps : list Step) : nat :=
  match steps with
  | [] => 0
  | Calls _ :: rest => S (callCount rest)
  | Does _ :: rest => callCount rest
  end.

(** The configuration of a component's latest render, if the component is
    mounted: a render sets it, an unmount forgets it. *)
Definition tracked (fid : nat) (latest : option loc) (s : Step) : option loc :=
  match s with
  | Does (Render f c) => if decide (f = fid) then Some c else latest
  | Does (Unmount f) => if decide (f = fid) then None else latest
  | _ => latest
  end.

Definition lastRendered (fid : nat) (steps : list Step) : option loc :=
  fold_left (tracked fid) steps None.

(** The component holds the cells of [useWeather] for the configuration
    [latest], or is not mounted when there is none. *)
Definition cellsFor (fid : nat) (latest : option loc) (w : World) : Prop :=
  match latest with
  | Some c => ∃ s, fibers w !! fid = Some (hookCells fid s c)
  | None => fibers w !! fid = None
  end.

(** The string holds a comma. *)
Definition hasComma (s : string) : bool :=
  match String.index 0 "," s with
  | Some _ => true
  | None => false
  end.

(** * Properties *)

(** ** One render of the hook *)

Lemma deps_equal (c c0 : loc) :
  areHookInputsEqual [VString url; VObject c] [VString url; VObject c0]
  = bool_decide (c = c0).
Proof.
  cbn. apply andb_true_r.
Qed.

Section Render.

Variables (fid : nat) (config : loc).

Lemma render_mount (w : World) :
  fibers w !! fid = None →
  renderWithHooks fid (useWeather config) w
  = (Normal {| response := None |},
     withFibers (<[fid := hookCells fid None config]> (fibers w)) w).
Proof.
  intros Hnone. unfold renderWithHooks, useWeather, mbind, M_bind, bind.
  unfold useState. simpl. rewrite Hnone. simpl.
  unfold useCallback. simpl. reflexivity.
Qed.

Lemma render_update (w : World) (s : ResponseState) (c0 : loc) :
  fibers w !! fid = Some (hookCells fid s c0) →
  renderWithHooks fid (useWeather config) w
  = (Normal {| response := s |},
     withFibers (<[fid := hookCells fid s config]> (fibers w)) w).
Proof.
  intros Hsome. unfold renderWithHooks, useWeather, mbind, M_bind, bind.
  unfold useState. simpl. rewrite Hsome. simpl.
  unfold useCallback. simpl. rewrite deps_equal.
  destruct (decide (config = c0)) as [-> | Hne].
  - rewrite bool_decide_eq_true_2 by reflexivity. reflexivity.
  - rewrite bool_decide_eq_false_2 by exact Hne. reflexivity.
Qed.

(** A render changes the rendered component's cells and nothing else. *)
Lemma render_frame (w : World) :
  let w' := (renderWithHooks fid (useWeather config) w).2 in
  heap w' = heap w ∧ localStorage w' = localStorage w
  ∧ fetchCalls w' = fetchCalls w ∧ tasks w' = tasks w ∧ clock w' = clock w
  ∧ ∀ other, other ≠ fid → fibers w' !! other = fibers w !! other.
Proof.
  unfold renderWithHooks, useWeather, mbind, M_bind, bind, useState,
    useCallback. simpl.
  destruct (fibers w !! fid) as [cells|] eqn:Hfid; simpl.
  - destruct (cells !! 0) as [[s|cb deps]|] eqn:H0; simpl;
      try (repeat split; reflexivity).
    destruct (cells !! 1) as [[s1|cb deps]|] eqn:H1; simpl;
      try (repeat split; reflexivity).
    destruct (areHookInputsEqual [VString url; VObject config] deps); simpl;
      (repeat split; try reflexivity);
      intros other Hne; apply lookup_insert_ne; congruence.
  - repeat split; try reflexivity.
    intros other Hne; apply lookup_insert_ne; congruence.
Qed.

(** The hook never looks at the local storage. *)
Lemma render_ignores_storage (w : World) (storage : gmap string string) :
  (renderWithHooks fid (useWeather config) (withStorage storage w)).1
  = (renderWithHooks fid (useWeather config) w).1.
Proof.
  unfold renderWithHooks, useWeather, mbind, M_bind, bind, useState,
    useCallback. simpl.
  destruct (fibers w !! fid) as [cells|] eqn:Hfid; simpl; [|reflexivity].
  destruct (cells !! 0) as [[s|cb deps]|]; simpl; try reflexivity.
  destruct (cells !! 1) as [[s1|cb deps]|]; simpl; try reflexivity.
  destruct (areHookInputsEqual [VString url; VObject config] deps);
    reflexivity.
Qed.

End Render.

Lemma memoised_insert (fid : nat) (s : ResponseState) (c : loc) (w : World) :
  memoised fid (withFibers (<[fid := hookCells fid s c]> (fibers w)) w)
  = Some (fetchCallback url c (setterOf fid), [VString url; VObject c]).
Proof. unfold memoised. simpl. rewrite lookup_insert_eq. reflexivity. Qed.

Lemma stateOf_cells (fid : nat) (s : ResponseState) (c : loc) (w : World) :
  fibers w !! fid = Some (hookCells fid s c) → stateOf fid w = s.
Proof. intros H. unfold stateOf. rewrite H. reflexivity. Qed.

(** ** The application as written: nothing ever calls the callback *)

Lemma idle_boot h storage now : idle (boot h storage now).
Proof.
  split; try reflexivity.
  intros fid cells H. simpl in H. rewrite lookup_empty in H. discriminate.
Qed.

Lemma render_idle (w : World) (fid : nat) (config : loc) :
  idle w →
  renderWithHooks fid (useWeather config) w
  = (Normal {| response := None |},
     withFibers (<[fid := hookCells fid None config]> (fibers w)) w).
Proof.
  intros Hidle.
  destruct (fibers w !! fid) as [cells|] eqn:Hfid.
  - destruct (idle_fibers w Hidle fid cells Hfid) as [c ->].
    apply (render_update fid config w None c Hfid).
  - apply render_mount, Hfid.
Qed.

Lemma idle_step (w : World) (e : Event) : idle w → idle (step w e).
Proof.
  intros Hidle. destruct Hidle as [Hcalls Htasks Hcells].
  assert (Hidle : idle w) by (split; assumption).
  destruct e as [fid config|fid|l o|k v|k|ms|tid result]; simpl.
  - rewrite (render_idle w fid config Hidle). simpl.
    split; simpl; try assumption.
    intros fid' cells. rewrite lookup_insert. case_decide as Heq.
    + intros [= <-]. subst fid'. eauto.
    + apply Hcells.
  - split; simpl; try assumption.
    intros fid' cells. rewrite lookup_delete. case_decide; [discriminate|].
    apply Hcells.
  - split; simpl; assumption.
  - split; simpl; assumption.
  - split; simpl; assumption.
  - split; simpl; assumption.
  - unfold settle. rewrite Htasks. simpl. exact Hidle.
Qed.

Lemma idle_exec (events : list Event) (w : World) : idle w → idle (exec events w).
Proof.
  revert w. induction events as [|e events IH]; intros w Hidle; simpl.
  - exact Hidle.
  - apply IH, idle_step, Hidle.
Qed.

(** C1. Whatever the application has done so far (any renders with any
    configurations, any settlements, any time passing), a call of
    [useWeather config] memoises the fetch callback for [config] through
    [useCallback] and returns [{ response: undefined }]; no async function
    has been called and [fetchWeatherApi] has not been called, before or
    after. Since this holds after every history, [response] stays undefined
    forever. *)
Theorem useWeather_never_fetches
  (h : gmap loc object) (storage : gmap string string) (now : Z)
  (history : list Event) (fid : nat) (config : loc) :
  let w := exec history (boot h storage now) in
  let w' := (renderWithHooks fid (useWeather config) w).2 in
  (renderWithHooks fid (useWeather config) w).1 = Normal {| response := None |}
  ∧ memoised fid w'
    = Some (fetchCallback url config (setterOf fid),
            [VString url; VObject config])
  ∧ tasks w' = [] ∧ fetchCalls w' = []
  ∧ tasks w = [] ∧ fetchCalls w = [].
Proof.
  intros w w'.
  assert (Hidle : idle w) by apply idle_exec, idle_boot.
  subst w'. rewrite (render_idle w fid config Hidle). simpl.
  split; [reflexivity|].
  split; [apply memoised_insert|].
  destruct Hidle as [Hcalls Htasks _]. auto.
Qed.

(** C9. A call of [useWeather] writes nothing to the local storage (nor to
    the heap, the fetch log, the task list: only the rendered component's own
    hook cells change), reads nothing from it (replacing the storage's whole
    content leaves the result as it is), and its result is the same after any
    two histories of the application, whatever configurations were rendered
    and whatever settled before. *)
Theorem useWeather_touches_no_store
  (w : World) (otherStorage : gmap string string)
  (h h' : gmap loc object) (storage storage' : gmap string string)
  (now now' : Z) (history history' : list Event) (fid : nat) (config : loc) :
  localStorage (renderWithHooks fid (useWeather config) w).2 = localStorage w
  ∧ heap (renderWithHooks fid (useWeather config) w).2 = heap w
  ∧ fetchCalls (renderWithHooks fid (useWeather config) w).2 = fetchCalls w
  ∧ (renderWithHooks fid (useWeather config) (withStorage otherStorage w)).1
    = (renderWithHooks fid (useWeather config) w).1
  ∧ (renderWithHooks fid (useWeather config)
       (exec history (boot h storage now))).1
    = (renderWithHooks fid (useWeather config)
         (exec history' (boot h' storage' now'))).1.
Proof.
  destruct (render_frame fid config w) as (Hheap & Hstorage & Hcalls & _).
  repeat split; try assumption.
  - apply render_ignores_storage.
  - rewrite !render_idle by apply idle_exec, idle_boot. reflexivity.
Qed.

(** C10. After any history, on any heap (so whatever the two objects hold:
    coordinates out of range, no granularity field), [useWeather c1] and
    [useWeather c2] both return normally, with the same value
    [{ response: undefined }]. *)
Theorem useWeather_output_independent_of_config
  (h : gmap loc object) (storage : gmap string string) (now : Z)
  (history : list Event) (fid : nat) (c1 c2 : loc) :
  let w := exec history (boot h storage now) in
  (renderWithHooks fid (useWeather c1) w).1
  = (renderWithHooks fid (useWeather c2) w).1
  ∧ (renderWithHooks fid (useWeather c1) w).1 = Normal {| response := None |}
  ∧ (renderWithHooks fid (useWeather c2) w).1 = Normal {| response := None |}.
Proof.
  intros w.
  assert (Hidle : idle w) by apply idle_exec, idle_boot.
  rewrite !render_idle by exact Hidle. auto.
Qed.

(** C3. The scenario of the specification, on the code: the configuration
    [{latitude: 52.52, longitude: 13.405, current_weather: true}], a local
    storage that holds a forecast stored at time 0, and calls of the hook at
    0, 5 and 20 minutes. Every call returns [{ response: undefined }], not
    the stored forecast, and no call of [fetchWeatherApi] is made at any
    time, none at 20 minutes either. The callback, were it called at 5
    minutes, would fetch although the forecast is stored. *)
Lemma stored_forecast_is_never_used :
  let w0 := boot {[1%positive := Sample.berlin]}
                 {["52.52,13.405,current_weather" := "forecast of 0:00"]} 0 in
  let w5 := exec [Render 0 1%positive; Tick (Sample.minutes 5)] w0 in
  let w20 := exec [Render 0 1%positive; Tick (Sample.minutes 15)] w5 in
  clock w5 = Sample.minutes 5 ∧ clock w20 = Sample.minutes 20
  ∧ (renderWithHooks 0 (useWeather 1%positive) w5).1
    = Normal {| response := None |}
  ∧ fetchCalls (renderWithHooks 0 (useWeather 1%positive) w5).2 = []
  ∧ (renderWithHooks 0 (useWeather 1%positive) w20).1
    = Normal {| response := None |}
  ∧ fetchCalls (renderWithHooks 0 (useWeather 1%positive) w20).2 = []
  ∧ tasks (renderWithHooks 0 (useWeather 1%positive) w20).2 = []
  ∧ fetchCalls (invokeMemoised 0 w5) = [(url, 1%positive)].
Proof.
  vm_compute. repeat split.
Qed.

(** ** The callback, when called *)

Section Callback.

Variables (config : loc) (setResponse : Setter).

Lemma invoke_fetchCallback (w : World) :
  invoke (fetchCallback url config setResponse) w
  = {| heap := heap w; localStorage := localStorage w; fibers := fibers w;
       fetchCalls := fetchCalls w ++ [(url, config)];
       tasks := tasks w ++ [Awaiting (length (fetchCalls w)) (afterFetch setResponse)];
       clock := clock w |}.
Proof.
  unfold invoke, fetchCallback, run, withTask. simpl.
  case_decide; [lia|reflexivity].
Qed.


End Callback.

Lemma invokeMemoised_mounted (w : World) (fid : nat) (s : ResponseState)
  (c : loc) :
  fibers w !! fid = Some (hookCells fid s c) →
  invokeMemoised fid w = invoke (fetchCallback url c (setterOf fid)) w.
Proof.
  intros Hcells. unfold invokeMemoised, memoised. rewrite Hcells. reflexivity.
Qed.

Lemma withTask_lookup (tid i : nat) (t x : Task) (w : World) :
  tasks (withTask tid t w) !! i = Some x → x = t ∨ tasks w !! i = Some x.
Proof.
  unfold withTask. simpl. case_decide as Hlt.
  - destruct (decide (tid = i)) as [<- | Hne].
    + rewrite list_lookup_insert_eq by exact Hlt. intros [= <-]. by left.
    + rewrite list_lookup_insert_ne by exact Hne. by right.
  - intros Hin. apply lookup_app_Some in Hin as [Hin | [_ Hin]].
    + by right.
    + left. apply list_lookup_singleton_Some in Hin as [_ <-]. reflexivity.
Qed.

Section Settled.

Variables (fid : nat) (config : loc).

Lemma settle_fulfilled_fibers (w : World) (tid call : nat) (st : Setter)
  (result : list WeatherApiResponse) :
  tasks w !! tid = Some (Awaiting call (afterFetch st)) →
  fibers (settle tid (Fulfilled result) w)
  = fibers (dispatchSetState st (Some result) w).
Proof.
  intros Htask. unfold settle. rewrite Htask. reflexivity.
Qed.

Lemma settle_rejected_fibers (w : World) (tid : nat) (reason : string) :
  fibers (settle tid (Rejected reason) w) = fibers w.
Proof.
  unfold settle. destruct (tasks w !! tid) as [[c k|r]|]; reflexivity.
Qed.

Lemma settle_rejected_task (w : World) (tid call : nat) k (reason : string) :
  tasks w !! tid = Some (Awaiting call k) →
  tasks (settle tid (Rejected reason) w) !! tid = Some (Done (Rejected reason)).
Proof.
  intros Htask. unfold settle. rewrite Htask. unfold withTask. simpl.
  apply lookup_lt_Some in Htask. case_decide; [|lia].
  apply list_lookup_insert_eq. assumption.
Qed.

Lemma render_after_fulfilled (w : World) (tid call : nat) (s : ResponseState)
  (c0 : loc) (result : list WeatherApiResponse) :
  tasks w !! tid = Some (Awaiting call (afterFetch (setterOf fid))) →
  fibers w !! fid = Some (hookCells fid s c0) →
  (renderWithHooks fid (useWeather config) (settle tid (Fulfilled result) w)).1
  = Normal {| response := Some result |}.
Proof.
  intros Htask Hcells.
  rewrite (render_update fid config _ (Some result) c0); [reflexivity|].
  rewrite (settle_fulfilled_fibers w tid call _ result Htask). simpl.
  rewrite lookup_alter_eq, Hcells. reflexivity.
Qed.

Lemma render_after_rejected (w : World) (tid : nat) (s : ResponseState)
  (c0 : loc) (reason : string) :
  fibers w !! fid = Some (hookCells fid s c0) →
  (renderWithHooks fid (useWeather config) (settle tid (Rejected reason) w)).1
  = Normal {| response := s |}.
Proof.
  intros Hcells.
  rewrite (render_update fid config _ s c0); [reflexivity|].
  rewrite settle_rejected_fibers. exact Hcells.
Qed.

End Settled.

(** ** Every world, callbacks called or not *)

Lemma coherent_boot h storage now : coherent (boot h storage now).
Proof.
  split; simpl.
  - intros fid cells H. rewrite lookup_empty in H. discriminate.
  - intros tid call k H. rewrite lookup_nil in H. discriminate.
Qed.

Lemma render_coherent (w : World) (fid : nat) (config : loc) :
  coherent w →
  renderWithHooks fid (useWeather config) w
  = (Normal {| response := stateOf fid w |},
     withFibers (<[fid := hookCells fid (stateOf fid w) config]> (fibers w)) w).
Proof.
  intros Hc.
  destruct (fibers w !! fid) as [cells|] eqn:Hfid.
  - destruct (coherent_fibers w Hc fid cells Hfid) as (s & c & ->).
    rewrite (stateOf_cells fid s c w Hfid).
    apply (render_update fid config w s c Hfid).
  - unfold stateOf. rewrite Hfid. apply render_mount, Hfid.
Qed.

Lemma coherent_step (w : World) (e : Event) : coherent w → coherent (step w e).
Proof.
  intros Hc. destruct Hc as [Hcells Htasks].
  assert (Hc : coherent w) by (split; assumption).
  destruct e as [fid config|fid|l o|k v|k|ms|tid result]; simpl.
  - rewrite (render_coherent w fid config Hc). simpl.
    split; simpl; try assumption.
    intros fid' cells. rewrite lookup_insert. case_decide as Heq.
    + intros [= <-]. subst fid'. eauto.
    + apply Hcells.
  - split; simpl; try assumption.
    intros fid' cells. rewrite lookup_delete. case_decide; [discriminate|].
    apply Hcells.
  - split; simpl; assumption.
  - split; simpl; assumption.
  - split; simpl; assumption.
  - split; simpl; assumption.
  - unfold settle.
    destruct (tasks w !! tid) as [[call k|r]|] eqn:Htid; try exact Hc.
    destruct (Htasks tid call k Htid) as [[f ->] Hlt].
    destruct result as [r|reason].
    + unfold afterFetch. simpl. split.
      * simpl. intros fid' cells. rewrite lookup_alter.
        case_decide as Heq; [|apply Hcells]. subst fid'.
        destruct (fibers w !! f) as [cells0|] eqn:Hf; simpl; [|discriminate].
        intros [= <-]. destruct (Hcells f cells0 Hf) as (s & c & ->).
        exists (Some r), c. reflexivity.
      * intros tid' call' k' Hin.
        apply withTask_lookup in Hin as [[=] | Hin]. apply (Htasks tid' call' k' Hin).
    + split; simpl; [exact Hcells|].
      intros tid' call' k' Hin.
      apply withTask_lookup in Hin as [[=] | Hin]. apply (Htasks tid' call' k' Hin).
Qed.

Lemma coherent_stepAny (w : World) (s : Step) :
  coherent w → coherent (stepAny w s).
Proof.
  intros Hc. destruct s as [e|fid]; simpl; [apply coherent_step, Hc|].
  destruct (fibers w !! fid) as [cells|] eqn:Hfid.
  - destruct (coherent_fibers w Hc fid cells Hfid) as (s & c & ->).
    rewrite (invokeMemoised_mounted w fid s c Hfid), invoke_fetchCallback.
    split; simpl; [apply (coherent_fibers w Hc)|].
    intros tid call k Hin. rewrite length_app. simpl.
    apply lookup_app_Some in Hin as [Hin | [_ Hin]].
    + destruct (coherent_tasks w Hc tid call k Hin) as [Hk Hlt].
      split; [exact Hk | lia].
    + apply list_lookup_singleton_Some in Hin as [_ [= <- <-]].
      split; [eauto | lia].
  - unfold invokeMemoised, memoised. rewrite Hfid. exact Hc.
Qed.

Lemma coherent_execAny (steps : list Step) (w : World) :
  coherent w → coherent (execAny steps w).
Proof.
  revert w. induction steps as [|s steps IH]; intros w Hc; simpl.
  - exact Hc.
  - apply IH, coherent_stepAny, Hc.
Qed.

Lemma coherent_exec (events : list Event) (w : World) :
  coherent w → coherent (exec events w).
Proof.
  revert w. induction events as [|e events IH]; intros w Hc; simpl.
  - exact Hc.
  - apply IH, coherent_step, Hc.
Qed.

(** The application as written is the one in which no step is a call. *)
Lemma exec_execAny (events : list Event) (w : World) :
  exec events w = execAny (map Does events) w.
Proof.
  revert w. induction events as [|e events IH]; intros w; simpl.
  - reflexivity.
  - apply IH.
Qed.

Section Coherent.

Variables (w : World) (fid : nat) (config : loc).
Hypothesis Hcoherent : coherent w.

Lemma memoised_after_render :
  memoised fid (renderWithHooks fid (useWeather config) w).2
  = Some (fetchCallback url config (setterOf fid),
          [VString url; VObject config]).
Proof. rewrite (render_coherent w fid config Hcoherent). apply memoised_insert. Qed.

Lemma memoKey_after_render :
  memoKey fid config w = Some [VString url; VObject config].
Proof. unfold memoKey. rewrite memoised_after_render. reflexivity. Qed.

Lemma invoke_after_render :
  invokeMemoised fid (renderWithHooks fid (useWeather config) w).2
  = {| heap := heap w; localStorage := localStorage w;
       fibers := <[fid := hookCells fid (stateOf fid w) config]> (fibers w);
       fetchCalls := fetchCalls w ++ [(url, config)];
       tasks := tasks w
                ++ [Awaiting (length (fetchCalls w)) (afterFetch (setterOf fid))];
       clock := clock w |}.
Proof.
  rewrite (render_coherent w fid config Hcoherent). simpl.
  rewrite (invokeMemoised_mounted _ fid (stateOf fid w) config)
    by (simpl; apply lookup_insert_eq).
  rewrite invoke_fetchCallback. reflexivity.
Qed.

End Coherent.

Lemma sameKey_after_render (w : World) (fid : nat) (c1 c2 : loc) :
  coherent w →
  sameKey (memoKey fid c1 w) (memoKey fid c2 w) = bool_decide (c1 = c2).
Proof.
  intros Hc. rewrite !memoKey_after_render by exact Hc.
  simpl. apply deps_equal.
Qed.

(** ** A rejected fetch *)




(** ** Several components, one configuration *)

Section Callers.

Variable config : loc.

Lemma waiting_lookup (callers : list nat) (call i fid : nat) :
  callers !! i = Some fid →
  waiting call callers !! i
  = Some (Awaiting (call + i) (afterFetch (setterOf fid))).
Proof.
  revert call i. induction callers as [|f callers IH]; intros call i Hi.
  - rewrite lookup_nil in Hi. discriminate.
  - destruct i as [|i]; simpl in *.
    + injection Hi as ->. rewrite Nat.add_0_r. reflexivity.
    + rewrite (IH (S call) i Hi).
      replace (call + S i) with (S call + i) by lia. reflexivity.
Qed.

Lemma waiting_outstanding (callers : list nat) (call : nat) :
  omap (λ t, match t with Awaiting c _ => Some c | Done _ => None end)
       (waiting call callers)
  = seq call (length callers).
Proof.
  revert call. induction callers as [|f callers IH]; intros call; simpl.
  - reflexivity.
  - f_equal. apply IH.
Qed.

Lemma renderEach_mounted (callers : list nat) (w : World) :
  coherent w →
  coherent (renderEach config callers w)
  ∧ ∀ fid, fid ∈ callers →
      ∃ s, fibers (renderEach config callers w) !! fid
           = Some (hookCells fid s config).
Proof.
  intros Hc. unfold renderEach.
  induction callers as [|f callers IH] using rev_ind; simpl.
  - split; [exact Hc|]. intros fid Hin. by apply elem_of_nil in Hin.
  - destruct IH as [Hc' Hcells].
    rewrite map_app. unfold exec in *. rewrite fold_left_app. simpl.
    split; [apply (coherent_step _ (Render f config)), Hc'|].
    rewrite (render_coherent _ f config Hc'). simpl.
    intros fid Hin. rewrite lookup_insert. case_decide as Heq.
    + subst. eauto.
    + apply elem_of_app in Hin as [Hin | Hin]; [by apply Hcells|].
      apply list_elem_of_singleton in Hin. congruence.
Qed.

Lemma invokeEach_spec (callers : list nat) (w : World) :
  (∀ fid, fid ∈ callers →
     ∃ s, fibers w !! fid = Some (hookCells fid s config)) →
  let w' := invokeEach callers w in
  fibers w' = fibers w ∧ heap w' = heap w ∧ localStorage w' = localStorage w
  ∧ fetchCalls w'
    = (fetchCalls w ++ replicate (length callers) (url, config))%list
  ∧ tasks w' = (tasks w ++ waiting (length (fetchCalls w)) callers)%list.
Proof.
  revert w. induction callers as [|f callers IH]; intros w Hcells; simpl.
  - rewrite !app_nil_r. auto.
  - destruct (Hcells f) as [s Hf]; [by left|].
    rewrite (invokeMemoised_mounted w f s config Hf), invoke_fetchCallback.
    match goal with |- context [invokeEach callers ?w1] =>
      destruct (IH w1) as (Hfib & Hheap & Hsto & Hcalls & Htasks)
    end.
    { intros fid Hin. simpl. apply Hcells. by right. }
    simpl in *. rewrite Hfib, Hheap, Hsto, Hcalls, Htasks.
    rewrite length_app, <- !app_assoc. simpl.
    rewrite Nat.add_1_r. auto.
Qed.

End Callers.

(** C2 (as amended). After anything that may have happened, let any number
    of components render [useWeather config], and let the callback of each
    be called before any fetch settles. Every one of these calls invokes
    [fetchWeatherApi] for itself, with the same arguments: as many fetch
    calls are added as there are callers, all of them are in flight at once,
    and each caller's response becomes the result of its own fetch. *)
Theorem concurrent_callers_each_fetch
  (h : gmap loc object) (storage : gmap string string) (now : Z)
  (steps : list Step) (config : loc) (callers : list nat) :
  let w := renderEach config callers (execAny steps (boot h storage now)) in
  let w' := invokeEach callers w in
  fetchCalls w'
  = (fetchCalls w ++ replicate (length callers) (url, config))%list
  ∧ outstanding w'
    = (outstanding w ++ seq (length (fetchCalls w)) (length callers))%list
  ∧ ∀ i fid result, callers !! i = Some fid →
      tasks w' !! (length (tasks w) + i)
      = Some (Awaiting (length (fetchCalls w) + i) (afterFetch (setterOf fid)))
      ∧ (renderWithHooks fid (useWeather config)
           (settle (length (tasks w) + i) (Fulfilled result) w')).1
        = Normal {| response := Some result |}.
Proof.
  intros w w'.
  destruct (renderEach_mounted config callers (execAny steps (boot h storage now)))
    as [Hc Hcells]; [apply coherent_execAny, coherent_boot|].
  fold w in Hc, Hcells.
  destruct (invokeEach_spec config callers w Hcells)
    as (Hfib & _ & _ & Hcalls & Htasks).
  fold w' in Hfib, Hcalls, Htasks.
  split; [exact Hcalls|]. split.
  - unfold outstanding. rewrite Htasks, omap_app. f_equal.
    apply waiting_outstanding.
  - intros i fid result Hi.
    assert (Htask : tasks w' !! (length (tasks w) + i)
                    = Some (Awaiting (length (fetchCalls w) + i)
                                     (afterFetch (setterOf fid)))).
    { rewrite Htasks, lookup_app_r by lia.
      replace (length (tasks w) + i - length (tasks w)) with i by lia.
      apply (waiting_lookup callers _ i fid Hi). }
    split; [exact Htask|].
    destruct (Hcells fid) as [s Hfid]; [eapply list_elem_of_lookup_2, Hi|].
    apply (render_after_fulfilled fid config w' _ _ s config result Htask).
    rewrite Hfib. exact Hfid.
Qed.

(** C2, the claim as stated fails: two components render the hook with one
    configuration and nothing stored. As the code stands no fetch is made;
    with both callbacks called there are two fetches in flight. Neither
    count is one. *)
Lemma dedup_counterexample :
  let w := renderEach 1%positive [0; 1]
             (boot {[1%positive := Sample.berlin]} ∅ 0) in
  length (fetchCalls w) ≠ 1
  ∧ length (fetchCalls (invokeEach [0; 1] w)) ≠ 1
  ∧ fetchCalls (invokeEach [0; 1] w) = [(url, 1%positive); (url, 1%positive)]
  ∧ outstanding (invokeEach [0; 1] w) = [0; 1].
Proof.
  vm_compute. repeat split; discriminate.
Qed.

(** ** What the application can see *)

(** C6 (as amended). After anything that may have happened, a call of
    [useWeather config] shows the application [{ response }] and nothing
    else: "Loading..." on the component's first call; once the callback it
    memoised has been called and its fetch fulfilled, the fetched data; after
    a rejected fetch, which rejects the callback's promise, what it showed
    before, since a hook result cannot show a failure (nor an idle state). A
    call with another configuration object leaves a callback for that object
    memoised, under that object's key. *)
Theorem response_is_the_only_state
  (h : gmap loc object) (storage : gmap string string) (now : Z)
  (steps : list Step) (fid : nat) (config config' : loc)
  (result : list WeatherApiResponse) (reason : string) :
  let w := execAny steps (boot h storage now) in
  let w1 := (renderWithHooks fid (useWeather config) w).2 in
  let w2 := invokeMemoised fid w1 in
  let tid := length (tasks w) in
  (fibers w !! fid = None →
   observed (renderWithHooks fid (useWeather config) w).1 = Some Loading)
  ∧ fetchCalls w2 = (fetchCalls w ++ [(url, config)])%list
  ∧ observed (renderWithHooks fid (useWeather config)
                (settle tid (Fulfilled result) w2)).1
    = Some (Ready result)
  ∧ tasks (settle tid (Rejected reason) w2) !! tid
    = Some (Done (Rejected reason))
  ∧ observed (renderWithHooks fid (useWeather config)
                (settle tid (Rejected reason) w2)).1
    = observed (renderWithHooks fid (useWeather config) w).1
  ∧ (∀ (r : HookResult) (e : string), observe r ≠ Failed e ∧ observe r ≠ Idle)
  ∧ memoised fid (renderWithHooks fid (useWeather config') w1).2
    = Some (fetchCallback url config' (setterOf fid),
            [VString url; VObject config']).
Proof.
  intros w w1 w2 tid.
  assert (Hc : coherent w) by apply coherent_execAny, coherent_boot.
  assert (Hc1 : coherent w1) by apply (coherent_step w (Render fid config) Hc).
  assert (Hw2 : w2 = {| heap := heap w; localStorage := localStorage w;
                        fibers := <[fid := hookCells fid (stateOf fid w) config]>
                                    (fibers w);
                        fetchCalls := fetchCalls w ++ [(url, config)];
                        tasks := tasks w
                                 ++ [Awaiting (length (fetchCalls w))
                                              (afterFetch (setterOf fid))];
                        clock := clock w |})
    by apply (invoke_after_render w fid config Hc).
  assert (Hcells : fibers w2 !! fid
                   = Some (hookCells fid (stateOf fid w) config)).
  { rewrite Hw2. simpl. apply lookup_insert_eq. }
  assert (Htask : tasks w2 !! tid
                  = Some (Awaiting (length (fetchCalls w))
                                   (afterFetch (setterOf fid)))).
  { rewrite Hw2. simpl. rewrite lookup_app_r by (subst tid; lia).
    subst tid. rewrite Nat.sub_diag. reflexivity. }
  split.
  { intros Hnone. rewrite (render_mount fid config w Hnone). reflexivity. }
  split; [rewrite Hw2; reflexivity|].
  split.
  { rewrite (render_after_fulfilled fid config w2 tid _ _ config result
               Htask Hcells).
    reflexivity. }
  split.
  { apply (settle_rejected_task w2 tid _ _ reason Htask). }
  split.
  { rewrite (render_after_rejected fid config w2 tid _ config reason Hcells).
    rewrite (render_coherent w fid config Hc). reflexivity. }
  split.
  { intros [[data|]] e; split; discriminate. }
  apply (memoised_after_render w1 fid config' Hc1).
Qed.

(** C6, the claim as stated fails: as the code stands the application keeps
    seeing "Loading..." however often it renders, and with the callback
    called and its fetch rejected it still sees "Loading...", not a
    failure. *)
Lemma state_machine_counterexample :
  let w := exec [Render 0 1%positive; Tick (Sample.minutes 5);
                 Render 0 1%positive]
             (boot {[1%positive := Sample.berlin]} ∅ 0) in
  let failed := settle 0 (Rejected "503") (invokeMemoised 0 w) in
  observed (renderWithHooks 0 (useWeather 1%positive) w).1 = Some Loading
  ∧ tasks failed = [Done (Rejected "503")]
  ∧ observed (renderWithHooks 0 (useWeather 1%positive) failed).1
    ≠ Some (Failed "503")
  ∧ observed (renderWithHooks 0 (useWeather 1%positive) failed).1 = Some Loading.
Proof.
  vm_compute. repeat split; discriminate.
Qed.

(** ** Configurations that break the documented constraints *)

(** C4 (as amended). After anything that may have happened, let [config] be
    an object that breaks the documented constraints: a latitude outside
    [-90, 90], a longitude outside [-180, 180], or none of [hourly], [daily],
    [current_weather]. The call [useWeather config] does not throw; it
    returns a hook result, and the callback it memoises hands this very
    object, unchanged, to [fetchWeatherApi]. *)
Theorem useWeather_does_not_validate
  (h : gmap loc object) (storage : gmap string string) (now : Z)
  (steps : list Step) (fid : nat) (config : loc) (o : object) :
  let w := execAny steps (boot h storage now) in
  let w1 := (renderWithHooks fid (useWeather config) w).2 in
  heap w !! config = Some o →
  Config.withinDocumentedConstraints o = false →
  (∃ r, (renderWithHooks fid (useWeather config) w).1 = Normal r)
  ∧ (∀ message,
       (renderWithHooks fid (useWeather config) w).1 ≠ Throw message)
  ∧ fetchCalls (invokeMemoised fid w1)
    = (fetchCalls w ++ [(url, config)])%list
  ∧ heap (invokeMemoised fid w1) !! config = Some o.
Proof.
  intros w w1 Ho _.
  assert (Hc : coherent w) by apply coherent_execAny, coherent_boot.
  subst w1. rewrite (invoke_after_render w fid config Hc).
  rewrite (render_coherent w fid config Hc). simpl.
  repeat split; try assumption; [eauto|]. intros message. discriminate.
Qed.

(** The theorem at a latitude of 91 degrees. *)
Lemma useWeather_does_not_validate_witness :
  Config.withinDocumentedConstraints Sample.beyondThePole = false
  ∧ heap (execAny [] (boot {[1%positive := Sample.beyondThePole]} ∅ 0))
    !! 1%positive = Some Sample.beyondThePole
  ∧ ∃ r, (renderWithHooks 0 (useWeather 1%positive)
            (execAny [] (boot {[1%positive := Sample.beyondThePole]} ∅ 0))).1
         = Normal r.
Proof.
  split; [reflexivity|]. split; [vm_compute; reflexivity|].
  apply (useWeather_does_not_validate {[1%positive := Sample.beyondThePole]}
           ∅ 0 [] 0 1%positive Sample.beyondThePole);
    [vm_compute; reflexivity | reflexivity].
Defined.

(** C4, the claim as stated fails: two objects of the interface's type, one
    with a latitude of 91 degrees, one without any granularity property. The
    hook returns normally for both, and the callback passes the first to
    [fetchWeatherApi]. *)
Lemma validation_counterexample :
  let w := boot {[1%positive := Sample.beyondThePole;
                  2%positive := Sample.coordinatesOnly]} ∅ 0 in
  Config.conforms Sample.beyondThePole = true
  ∧ Config.conforms Sample.coordinatesOnly = true
  ∧ Config.inRange (-90)%float 90%float (get "latitude" Sample.beyondThePole)
    = false
  ∧ Config.withinDocumentedConstraints Sample.coordinatesOnly = false
  ∧ (renderWithHooks 0 (useWeather 1%positive) w).1
    = Normal {| response := None |}
  ∧ (renderWithHooks 0 (useWeather 2%positive) w).1
    = Normal {| response := None |}
  ∧ fetchCalls
      (invokeMemoised 0 (renderWithHooks 0 (useWeather 1%positive) w).2)
    = [(url, 1%positive)].
Proof.
  vm_compute. repeat split.
Qed.

(** ** Keys and defaults *)

Lemma get_setProp_eq (k : string) (v : value) (o : object) :
  get k (setProp k v o) = v.
Proof.
  induction o as [|[k' v'] o IH]; simpl.
  - rewrite decide_True by reflexivity. reflexivity.
  - destruct (decide (k = k')) as [Heq | Hne]; simpl.
    + rewrite decide_True by reflexivity. reflexivity.
    + rewrite decide_False by exact Hne. exact IH.
Qed.

Lemma documentedDefault_defined (k : string) (d : value) :
  Config.documentedDefault k = Some d → d ≠ VUndefined.
Proof.
  unfold Config.documentedDefault, Config.OpenMeteoForecastConfig. simpl.
  repeat (case_bool_decide; simpl; [intros [= <-]; discriminate|]).
  discriminate.
Qed.

(** C7 (as amended). The hook normalises nothing: the only key it derives
    from a configuration is the dependency list [[url, config]] of
    [useCallback], which React compares by object identity. After anything
    that may have happened, for two configuration objects of the heap: the
    keys are taken for the same exactly when the two are one object;
    configurations that differ in a property (say, only in [timezone]) have
    different keys; and so have two distinct objects, even when they agree on
    every property, in whatever order their properties were written. *)
Theorem memo_key_is_object_identity
  (h : gmap loc object) (storage : gmap string string) (now : Z)
  (steps : list Step) (fid : nat) (c1 c2 : loc) (o1 o2 : object) :
  let w := execAny steps (boot h storage now) in
  heap w !! c1 = Some o1 →
  heap w !! c2 = Some o2 →
  (sameKey (memoKey fid c1 w) (memoKey fid c2 w) = true ↔ c1 = c2)
  ∧ (¬ Config.fieldwiseEqual o1 o2 →
     sameKey (memoKey fid c1 w) (memoKey fid c2 w) = false)
  ∧ (c1 ≠ c2 → sameKey (memoKey fid c1 w) (memoKey fid c2 w) = false).
Proof.
  intros w H1 H2.
  assert (Hc : coherent w) by apply coherent_execAny, coherent_boot.
  rewrite (sameKey_after_render w fid c1 c2 Hc).
  split; [apply bool_decide_eq_true|]. split.
  - intros Hdiff. apply bool_decide_eq_false. intros ->.
    apply Hdiff. rewrite H1 in H2. injection H2 as ->. intros k. reflexivity.
  - intros Hne. apply bool_decide_eq_false. exact Hne.
Qed.

(** The theorem at two objects that hold the same properties in different
    orders. *)
Lemma memo_key_is_object_identity_witness :
  let w := execAny [] (boot {[1%positive := Sample.berlin;
                              2%positive := Sample.berlinReordered]} ∅ 0) in
  heap w !! 1%positive = Some Sample.berlin
  ∧ heap w !! 2%positive = Some Sample.berlinReordered
  ∧ (sameKey (memoKey 0 1%positive w) (memoKey 0 2%positive w) = true
     ↔ 1%positive = 2%positive).
Proof.
  split; [vm_compute; reflexivity|]. split; [vm_compute; reflexivity|].
  apply (memo_key_is_object_identity
           {[1%positive := Sample.berlin; 2%positive := Sample.berlinReordered]}
           ∅ 0 [] 0 1%positive 2%positive Sample.berlin Sample.berlinReordered);
    vm_compute; reflexivity.
Defined.

(** C7, the claim as stated fails: two objects that agree on every property
    (written in different orders, or even in the same order) get different
    keys. *)
Lemma normalisation_counterexample :
  let w := boot {[1%positive := Sample.berlin;
                  2%positive := Sample.berlinReordered;
                  3%positive := Sample.berlin]} ∅ 0 in
  Config.fieldwiseEqual Sample.berlin Sample.berlinReordered
  ∧ sameKey (memoKey 0 1%positive w) (memoKey 0 2%positive w) = false
  ∧ sameKey (memoKey 0 1%positive w) (memoKey 0 3%positive w) = false.
Proof.
  split.
  - intros k. unfold Sample.berlin, Sample.berlinReordered. simpl.
    repeat case_decide; subst; try reflexivity; discriminate.
  - vm_compute. split; reflexivity.
Qed.

(** C8 (as amended). The hook applies no default. After anything that may
    have happened, let one configuration object omit a property that has a
    documented default and another be the same configuration with the
    property set to that default. Their keys differ, and the callback of
    each hands its own object to [fetchWeatherApi], unchanged: one request
    carries the property, the other does not. *)
Theorem explicit_default_is_kept_apart
  (h : gmap loc object) (storage : gmap string string) (now : Z)
  (steps : list Step) (fid : nat) (omitted explicit : loc)
  (o : object) (k : string) (d : value) :
  let w := execAny steps (boot h storage now) in
  let requestOf c := invokeMemoised fid (renderWithHooks fid (useWeather c) w).2 in
  Config.documentedDefault k = Some d →
  get k o = VUndefined →
  heap w !! omitted = Some o →
  heap w !! explicit = Some (setProp k d o) →
  sameKey (memoKey fid explicit w) (memoKey fid omitted w) = false
  ∧ fetchCalls (requestOf omitted) = (fetchCalls w ++ [(url, omitted)])%list
  ∧ fetchCalls (requestOf explicit) = (fetchCalls w ++ [(url, explicit)])%list
  ∧ (get k <$> heap (requestOf omitted) !! omitted) = Some VUndefined
  ∧ (get k <$> heap (requestOf explicit) !! explicit) = Some d
  ∧ d ≠ VUndefined.
Proof.
  intros w requestOf Hdefault Hget Homitted Hexplicit.
  assert (Hc : coherent w) by apply coherent_execAny, coherent_boot.
  pose proof (documentedDefault_defined k d Hdefault) as Hd.
  subst requestOf. simpl.
  rewrite !(invoke_after_render w fid _ Hc). simpl.
  rewrite Homitted, Hexplicit. simpl. rewrite get_setProp_eq, Hget.
  rewrite (sameKey_after_render w fid explicit omitted Hc).
  repeat split; try assumption.
  apply bool_decide_eq_false. intros ->.
  rewrite Homitted in Hexplicit. injection Hexplicit as Ho.
  apply Hd. rewrite <- Hget, Ho. symmetry. apply get_setProp_eq.
Qed.

(** The theorem at [temperature_unit], whose documented default is
    ["celsius"]. *)
Lemma explicit_default_is_kept_apart_witness :
  let w := execAny [] (boot {[1%positive := Sample.berlin;
                              2%positive := Sample.berlinCelsius]} ∅ 0) in
  Config.documentedDefault "temperature_unit" = Some (VString "celsius")
  ∧ get "temperature_unit" Sample.berlin = VUndefined
  ∧ heap w !! 1%positive = Some Sample.berlin
  ∧ heap w !! 2%positive
    = Some (setProp "temperature_unit" (VString "celsius") Sample.berlin)
  ∧ sameKey (memoKey 0 2%positive w) (memoKey 0 1%positive w) = false.
Proof.
  split; [reflexivity|]. split; [reflexivity|].
  split; [vm_compute; reflexivity|]. split; [vm_compute; reflexivity|].
  apply (explicit_default_is_kept_apart
           {[1%positive := Sample.berlin; 2%positive := Sample.berlinCelsius]}
           ∅ 0 [] 0 1%positive 2%positive Sample.berlin "temperature_unit"
           (VString "celsius"));
    vm_compute; reflexivity.
Defined.

(** C8, the claim as stated fails: the scenario's configuration, and the
    same with [temperature_unit: "celsius"] added, get different keys and
    make different requests. *)
Lemma default_equivalence_counterexample :
  let w := boot {[1%positive := Sample.berlin;
                  2%positive := Sample.berlinCelsius]} ∅ 0 in
  let requestOf c := invokeMemoised 0 (renderWithHooks 0 (useWeather c) w).2 in
  Config.documentedDefault "temperature_unit" = Some (VString "celsius")
  ∧ Sample.berlinCelsius
    = (Sample.berlin ++ [("temperature_unit", VString "celsius")])%list
  ∧ sameKey (memoKey 0 2%positive w) (memoKey 0 1%positive w) = false
  ∧ fetchCalls (requestOf 1%positive) ≠ fetchCalls (requestOf 2%positive)
  ∧ heap (requestOf 1%positive) !! 1%positive
    ≠ heap (requestOf 2%positive) !! 2%positive.
Proof.
  vm_compute. repeat split; discriminate.
Qed.

(** * Further properties of the hook *)

(** ** What one step does to a coherent world *)

Lemma execAny_snoc (steps : list Step) (s : Step) (w : World) :
  execAny (steps ++ [s]) w = stepAny (execAny steps w) s.
Proof. unfold execAny. rewrite fold_left_app. reflexivity. Qed.

Lemma stateOf_fibers (fid : nat) (w w' : World) :
  fibers w = fibers w' → stateOf fid w = stateOf fid w'.
Proof. intros H. unfold stateOf. rewrite H. reflexivity. Qed.

Lemma calls_effect (w : World) (f : nat) :
  coherent w →
  (fibers w !! f = None ∧ invokeMemoised f w = w)
  ∨ (∃ s c, fibers w !! f = Some (hookCells f s c)
            ∧ invokeMemoised f w
              = {| heap := heap w; localStorage := localStorage w;
                   fibers := fibers w;
                   fetchCalls := fetchCalls w ++ [(url, c)];
                   tasks := tasks w
                            ++ [Awaiting (length (fetchCalls w))
                                         (afterFetch (setterOf f))];
                   clock := clock w |}).
Proof.
  intros Hc. destruct (fibers w !! f) as [cells|] eqn:Hf.
  - right. destruct (coherent_fibers w Hc f cells Hf) as (s & c & ->).
    exists s, c. split; [reflexivity|].
    rewrite (invokeMemoised_mounted w f s c Hf). apply invoke_fetchCallback.
  - left. split; [reflexivity|]. unfold invokeMemoised, memoised.
    rewrite Hf. reflexivity.
Qed.

Lemma settle_effect (w : World) (tid : nat)
  (result : settled (list WeatherApiResponse)) :
  coherent w →
  settle tid result w = w
  ∨ ∃ call f,
      tasks w !! tid = Some (Awaiting call (afterFetch (setterOf f)))
      ∧ settle tid result w
        = match result with
          | Fulfilled r =>
              withTask tid (Done (Fulfilled ()))
                (dispatchSetState (setterOf f) (Some r) w)
          | Rejected e => withTask tid (Done (Rejected e)) w
          end.
Proof.
  intros Hc. unfold settle.
  destruct (tasks w !! tid) as [[call k|r]|] eqn:Htid; try (by left).
  destruct (coherent_tasks w Hc tid call k Htid) as [[f ->] _].
  right. exists call, f. split; [reflexivity|].
  destruct result; reflexivity.
Qed.

Lemma withTask_length (tid : nat) (t : Task) (w : World) :
  tid < length (tasks w) →
  length (tasks (withTask tid t w)) = length (tasks w).
Proof.
  intros Hlt. unfold withTask. simpl. rewrite decide_True by exact Hlt.
  apply length_insert.
Qed.

Lemma withTask_other (tid i : nat) (t : Task) (w : World) :
  tid < length (tasks w) → i ≠ tid →
  tasks (withTask tid t w) !! i = tasks w !! i.
Proof.
  intros Hlt Hne. unfold withTask. simpl. rewrite decide_True by exact Hlt.
  apply list_lookup_insert_ne. congruence.
Qed.

Lemma stateOf_withTask (fid tid : nat) (t : Task) (w : World) :
  stateOf fid (withTask tid t w) = stateOf fid w.
Proof. reflexivity. Qed.

Lemma stateOf_render (w : World) (f fid : nat) (c : loc) :
  coherent w →
  stateOf fid (renderWithHooks f (useWeather c) w).2 = stateOf fid w.
Proof.
  intros Hc. rewrite (render_coherent w f c Hc). unfold stateOf at 1. simpl.
  rewrite lookup_insert. case_decide as Heq; [subst|]; reflexivity.
Qed.

Lemma stateOf_setState (w : World) (f fid : nat) (r : list WeatherApiResponse) :
  coherent w →
  stateOf fid (dispatchSetState (setterOf f) (Some r) w)
  = if decide (f = fid)
    then match fibers w !! fid with Some _ => Some r | None => None end
    else stateOf fid w.
Proof.
  intros Hc. unfold stateOf, dispatchSetState. simpl. rewrite lookup_alter.
  case_decide as Heq; [subst f|reflexivity].
  destruct (fibers w !! fid) as [cells|] eqn:Hf; simpl; [|reflexivity].
  destruct (coherent_fibers w Hc fid cells Hf) as (s & c & ->). reflexivity.
Qed.

Lemma settle_fulfilled_world (w : World) (tid call f : nat)
  (r : list WeatherApiResponse) :
  tasks w !! tid = Some (Awaiting call (afterFetch (setterOf f))) →
  settle tid (Fulfilled r) w
  = withTask tid (Done (Fulfilled ()))
      (dispatchSetState (setterOf f) (Some r) w).
Proof. intros Htid. unfold settle. rewrite Htid. reflexivity. Qed.

Lemma step_keeps_calls (w : World) (e : Event) :
  coherent w →
  fetchCalls (step w e) = fetchCalls w
  ∧ length (tasks (step w e)) = length (tasks w).
Proof.
  intros Hc. destruct e as [f c|f|l o|k v|k|ms|tid result]; simpl;
    try (split; reflexivity).
  - destruct (render_frame f c w) as (_ & _ & Hcalls & Htasks & _).
    simpl in Hcalls, Htasks. rewrite Hcalls, Htasks. split; reflexivity.
  - destruct (settle_effect w tid result Hc) as [-> | (call & f & Htid & ->)];
      [split; reflexivity|].
    pose proof (lookup_lt_Some _ _ _ Htid) as Hlt.
    destruct result as [r|e]; split; try reflexivity;
      rewrite withTask_length by exact Hlt; reflexivity.
Qed.

Lemma rerender_cons (fid : nat) (c : loc) (configs : list loc) (w : World) :
  rerender fid (c :: configs) w
  = rerender fid configs (renderWithHooks fid (useWeather c) w).2.
Proof. reflexivity. Qed.

Lemma rerender_effect (fid : nat) (configs : list loc) (w : World) :
  coherent w →
  let w' := rerender fid configs w in
  coherent w'
  ∧ (∀ f, stateOf f w' = stateOf f w)
  ∧ fetchCalls w' = fetchCalls w ∧ tasks w' = tasks w
  ∧ heap w' = heap w ∧ localStorage w' = localStorage w.
Proof.
  revert w. induction configs as [|c configs IH]; intros w Hc.
  - simpl. split; [exact Hc|]. repeat split; reflexivity.
  - rewrite rerender_cons.
    pose proof (coherent_step w (Render fid c) Hc) as Hc1. simpl in Hc1.
    destruct (IH _ Hc1) as (Hc' & Hstate & Hcalls & Htasks & Hheap & Hsto).
    destruct (render_frame fid c w) as (Hh & Hs & Hf & Ht & _).
    simpl in Hh, Hs, Hf, Ht.
    split; [exact Hc'|]. split.
    { intros f. rewrite Hstate. apply stateOf_render, Hc. }
    rewrite Hcalls, Htasks, Hheap, Hsto, Hh, Hs, Hf, Ht. auto.
Qed.

Section AfterACall.

Variables (w : World) (fid : nat) (config : loc).
Hypothesis Hcoherent : coherent w.

Local Abbreviation called :=
  (invokeMemoised fid (renderWithHooks fid (useWeather config) w).2).

Lemma called_coherent : coherent called.
Proof.
  apply (coherent_stepAny _ (Calls fid)).
  apply (coherent_step w (Render fid config) Hcoherent).
Qed.

Lemma called_task :
  tasks called !! length (tasks w)
  = Some (Awaiting (length (fetchCalls w)) (afterFetch (setterOf fid))).
Proof.
  rewrite (invoke_after_render w fid config Hcoherent). simpl.
  rewrite lookup_app_r by lia. rewrite Nat.sub_diag. reflexivity.
Qed.

Lemma called_cells :
  fibers called !! fid = Some (hookCells fid (stateOf fid w) config).
Proof.
  rewrite (invoke_after_render w fid config Hcoherent). simpl.
  apply lookup_insert_eq.
Qed.

Lemma called_fetchCalls :
  fetchCalls called = (fetchCalls w ++ [(url, config)])%list.
Proof.
  rewrite (invoke_after_render w fid config Hcoherent).
  reflexivity.
Qed.

Lemma called_state (f : nat) : stateOf f called = stateOf f w.
Proof.
  rewrite (invoke_after_render w fid config Hcoherent).
  unfold stateOf at 1. simpl. rewrite lookup_insert.
  case_decide as Heq; [subst|]; reflexivity.
Qed.

End AfterACall.

(** ** The hook after any trace *)

(** X1. After any sequence of renders, unmounts, callback calls and
    settlements, a call of [useWeather] does not throw (React's hook-order
    check never fires): it returns the state the component holds, leaves the
    component with exactly its two cells, the state and the callback memoised
    for the given configuration, and touches no other component. *)
Theorem useWeather_keeps_hook_order
  (h : gmap loc object) (storage : gmap string string) (now : Z)
  (steps : list Step) (fid : nat) (config : loc) :
  let w := execAny steps (boot h storage now) in
  let w' := (renderWithHooks fid (useWeather config) w).2 in
  (renderWithHooks fid (useWeather config) w).1
  = Normal {| response := stateOf fid w |}
  ∧ fibers w' !! fid = Some (hookCells fid (stateOf fid w) config)
  ∧ ∀ other, other ≠ fid → fibers w' !! other = fibers w !! other.
Proof.
  intros w w'.
  assert (Hc : coherent w) by apply coherent_execAny, coherent_boot.
  subst w'. rewrite (render_coherent w fid config Hc). simpl.
  split; [reflexivity|]. split; [apply lookup_insert_eq|].
  intros other Hne. apply lookup_insert_ne. congruence.
Qed.

(** X2. Once a fetch of the component's callback has been fulfilled, the
    fetched data stays: however often the component renders the hook again,
    and with whatever configuration objects, the hook returns that data, and
    these renders make no further call of [fetchWeatherApi]. *)
Theorem response_survives_config_change
  (h : gmap loc object) (storage : gmap string string) (now : Z)
  (steps : list Step) (fid : nat) (config config' : loc)
  (configs : list loc) (data : list WeatherApiResponse) :
  let w := execAny steps (boot h storage now) in
  let called :=
    invokeMemoised fid (renderWithHooks fid (useWeather config) w).2 in
  let settledWorld := settle (length (tasks w)) (Fulfilled data) called in
  let later := rerender fid configs settledWorld in
  (renderWithHooks fid (useWeather config') later).1
  = Normal {| response := Some data |}
  ∧ fetchCalls (renderWithHooks fid (useWeather config') later).2
    = (fetchCalls w ++ [(url, config)])%list.
Proof.
  intros w called settledWorld later.
  assert (Hc : coherent w) by apply coherent_execAny, coherent_boot.
  pose proof (called_coherent w fid config Hc) as Hcalled. fold called in Hcalled.
  pose proof (called_task w fid config Hc) as Htask. fold called in Htask.
  pose proof (called_cells w fid config Hc) as Hcells. fold called in Hcells.
  assert (Hcs : coherent settledWorld)
    by apply (coherent_step called (Settle _ _) Hcalled).
  assert (Hstate : stateOf fid settledWorld = Some data).
  { subst settledWorld.
    rewrite (settle_fulfilled_world called _ _ fid data Htask).
    rewrite stateOf_withTask.
    rewrite (stateOf_setState called fid fid data Hcalled).
    rewrite decide_True by reflexivity. rewrite Hcells. reflexivity. }
  destruct (rerender_effect fid configs settledWorld Hcs)
    as (Hcl & Hst & Hcalls & _).
  fold later in Hcl, Hst, Hcalls.
  rewrite (render_coherent later fid config' Hcl). simpl.
  rewrite Hst, Hstate, Hcalls. split; [reflexivity|].
  subst settledWorld.
  rewrite (settle_fulfilled_world called _ _ fid data Htask). simpl.
  apply (called_fetchCalls w fid config Hc).
Qed.

(** X3. A result that arrives late is not discarded: let the callback for
    [config] be called, let the component then render the hook with other
    configuration objects, the last of them [config'], and let the fetch for
    [config] be fulfilled only then. The component, whose memoised callback
    is the one for [config'], gets the data fetched for [config]; that fetch
    is the only one made. *)
Theorem late_result_overwrites
  (h : gmap loc object) (storage : gmap string string) (now : Z)
  (steps : list Step) (fid : nat) (config config' : loc)
  (configs : list loc) (data : list WeatherApiResponse) :
  let w := execAny steps (boot h storage now) in
  let called :=
    invokeMemoised fid (renderWithHooks fid (useWeather config) w).2 in
  let moved :=
    (renderWithHooks fid (useWeather config')
       (rerender fid configs called)).2 in
  let late := settle (length (tasks w)) (Fulfilled data) moved in
  memoised fid late
  = Some (fetchCallback url config' (setterOf fid),
          [VString url; VObject config'])
  ∧ fetchCalls late = (fetchCalls w ++ [(url, config)])%list
  ∧ (renderWithHooks fid (useWeather config') late).1
    = Normal {| response := Some data |}.
Proof.
  intros w called moved late.
  assert (Hc : coherent w) by apply coherent_execAny, coherent_boot.
  pose proof (called_coherent w fid config Hc) as Hcalled. fold called in Hcalled.
  pose proof (called_task w fid config Hc) as Htask. fold called in Htask.
  destruct (rerender_effect fid configs called Hcalled)
    as (Hcr & _ & Hcalls & Htasks & _).
  destruct (render_frame fid config' (rerender fid configs called))
    as (_ & _ & Hcalls' & Htasks' & _).
  fold moved in Hcalls', Htasks'.
  assert (Hcells : fibers moved !! fid
                   = Some (hookCells fid
                             (stateOf fid (rerender fid configs called)) config')).
  { subst moved. rewrite (render_coherent _ fid config' Hcr). simpl.
    apply lookup_insert_eq. }
  assert (Htask' : tasks moved !! length (tasks w)
                   = Some (Awaiting (length (fetchCalls w))
                                    (afterFetch (setterOf fid)))).
  { rewrite Htasks', Htasks. exact Htask. }
  split; [|split].
  - subst late. rewrite (settle_fulfilled_world moved _ _ fid data Htask').
    unfold memoised. simpl. rewrite lookup_alter_eq, Hcells. reflexivity.
  - subst late. rewrite (settle_fulfilled_world moved _ _ fid data Htask').
    simpl. rewrite Hcalls', Hcalls. apply (called_fetchCalls w fid config Hc).
  - apply (render_after_fulfilled fid config' moved _ _ _ config' data
             Htask' Hcells).
Qed.

(** X4. With two calls of the callback in flight for one component, the
    component ends with the data of whichever fetch is fulfilled last,
    whatever the order in which the calls were made. *)
Theorem last_settlement_wins
  (h : gmap loc object) (storage : gmap string string) (now : Z)
  (steps : list Step) (fid : nat) (config : loc)
  (first second : list WeatherApiResponse) :
  let w := execAny steps (boot h storage now) in
  let called :=
    invokeMemoised fid
      (invokeMemoised fid (renderWithHooks fid (useWeather config) w).2) in
  let t1 := length (tasks w) in
  let t2 := S (length (tasks w)) in
  outstanding called
  = (outstanding w ++ [length (fetchCalls w); S (length (fetchCalls w))])%list
  ∧ (renderWithHooks fid (useWeather config)
       (settle t2 (Fulfilled second) (settle t1 (Fulfilled first) called))).1
    = Normal {| response := Some second |}
  ∧ (renderWithHooks fid (useWeather config)
       (settle t1 (Fulfilled first) (settle t2 (Fulfilled second) called))).1
    = Normal {| response := Some first |}.
Proof.
  intros w called t1 t2.
  assert (Hc : coherent w) by apply coherent_execAny, coherent_boot.
  pose proof (called_coherent w fid config Hc) as Hc1.
  pose proof (called_cells w fid config Hc) as Hcells1.
  assert (Hcalled : called
    = {| heap := heap w; localStorage := localStorage w;
         fibers := <[fid := hookCells fid (stateOf fid w) config]> (fibers w);
         fetchCalls := fetchCalls w ++ [(url, config); (url, config)];
         tasks := tasks w
                  ++ [Awaiting (length (fetchCalls w)) (afterFetch (setterOf fid));
                      Awaiting (S (length (fetchCalls w)))
                               (afterFetch (setterOf fid))];
         clock := clock w |}).
  { subst called.
    rewrite (invokeMemoised_mounted _ fid _ config Hcells1).
    rewrite invoke_fetchCallback.
    rewrite (invoke_after_render w fid config Hc). simpl.
    rewrite length_app, <- !app_assoc. simpl. rewrite Nat.add_1_r.
    reflexivity. }
  assert (Hcc : coherent called).
  { subst called. apply (coherent_stepAny _ (Calls fid)), Hc1. }
  assert (Hcells : fibers called !! fid
                   = Some (hookCells fid (stateOf fid w) config)).
  { rewrite Hcalled. simpl. apply lookup_insert_eq. }
  assert (Ht1 : tasks called !! t1
                = Some (Awaiting (length (fetchCalls w))
                                 (afterFetch (setterOf fid)))).
  { rewrite Hcalled. simpl. rewrite lookup_app_r by (subst t1; lia).
    subst t1. rewrite Nat.sub_diag. reflexivity. }
  assert (Ht2 : tasks called !! t2
                = Some (Awaiting (S (length (fetchCalls w)))
                                 (afterFetch (setterOf fid)))).
  { rewrite Hcalled. simpl. rewrite lookup_app_r by (subst t2; lia).
    subst t2. replace (S (length (tasks w)) - length (tasks w)) with 1 by lia.
    reflexivity. }
  assert (Hafter : ∀ ta tb ca cb (a b : list WeatherApiResponse),
    ta ≠ tb →
    tasks called !! ta = Some (Awaiting ca (afterFetch (setterOf fid))) →
    tasks called !! tb = Some (Awaiting cb (afterFetch (setterOf fid))) →
    (renderWithHooks fid (useWeather config)
       (settle tb (Fulfilled b) (settle ta (Fulfilled a) called))).1
    = Normal {| response := Some b |}).
  { intros ta tb ca cb a b Hne Hta Htb.
    rewrite (settle_fulfilled_world called ta ca fid a Hta).
    apply (render_after_fulfilled fid config _ tb cb (Some a) config b).
    - rewrite withTask_other; [exact Htb| |congruence].
      simpl. eapply lookup_lt_Some, Hta.
    - simpl. rewrite lookup_alter_eq, Hcells. reflexivity. }
  split; [|split].
  - unfold outstanding. rewrite Hcalled. simpl. rewrite omap_app. reflexivity.
  - apply (Hafter t1 t2 _ _ first second ltac:(subst t1 t2; lia) Ht1 Ht2).
  - apply (Hafter t2 t1 _ _ second first ltac:(subst t1 t2; lia) Ht2 Ht1).
Qed.

(** X5. When the component is unmounted before the fetch of its callback
    settles, the settlement changes no component: [setResponse] finds no
    cell to write. The callback's own promise still settles, fulfilled after
    a fulfilled fetch and rejected with the fetch's reason otherwise, and no
    further fetch is made. *)
Theorem settle_after_unmount
  (h : gmap loc object) (storage : gmap string string) (now : Z)
  (steps : list Step) (fid : nat) (config : loc)
  (result : settled (list WeatherApiResponse)) :
  let w := execAny steps (boot h storage now) in
  let called :=
    invokeMemoised fid (renderWithHooks fid (useWeather config) w).2 in
  let gone := step called (Unmount fid) in
  let late := settle (length (tasks w)) result gone in
  fibers late = fibers gone
  ∧ fibers late !! fid = None
  ∧ tasks late !! length (tasks w)
    = Some (Done match result with
                 | Fulfilled _ => Fulfilled ()
                 | Rejected reason => Rejected reason
                 end)
  ∧ fetchCalls late = fetchCalls called
  ∧ localStorage late = localStorage w.
Proof.
  intros w called gone late.
  assert (Hc : coherent w) by apply coherent_execAny, coherent_boot.
  pose proof (called_task w fid config Hc) as Htask. fold called in Htask.
  assert (Hsto : localStorage called = localStorage w).
  { subst called. rewrite (invoke_after_render w fid config Hc). reflexivity. }
  assert (Htask' : tasks gone !! length (tasks w)
                   = Some (Awaiting (length (fetchCalls w))
                                    (afterFetch (setterOf fid))))
    by exact Htask.
  pose proof (lookup_lt_Some _ _ _ Htask') as Hlt.
  assert (Hlate : late
    = match result with
      | Fulfilled r => withTask (length (tasks w)) (Done (Fulfilled ()))
                         (dispatchSetState (setterOf fid) (Some r) gone)
      | Rejected e => withTask (length (tasks w)) (Done (Rejected e)) gone
      end).
  { subst late. unfold settle. rewrite Htask'. destruct result; reflexivity. }
  assert (Hfib : fibers late = fibers gone).
  { rewrite Hlate. destruct result as [r|e]; simpl; [|reflexivity].
    apply map_eq. intros i. rewrite lookup_alter. case_decide as Heq; [|reflexivity].
    subst i. rewrite lookup_delete_eq. reflexivity. }
  split; [exact Hfib|]. split.
  { rewrite Hfib. simpl. apply lookup_delete_eq. }
  split.
  { rewrite Hlate. unfold withTask.
    destruct result as [r|e]; simpl; simpl in Hlt;
      (rewrite decide_True by exact Hlt);
      apply list_lookup_insert_eq; exact Hlt. }
  rewrite Hlate. destruct result; simpl; auto.
Qed.

(** X6. Components do not share a response: calling one component's callback
    and settling its fetch, with data or with a rejection, leaves what the
    hook returns in every other component as it was. *)
Theorem components_are_isolated
  (h : gmap loc object) (storage : gmap string string) (now : Z)
  (steps : list Step) (fid other : nat) (config config' : loc)
  (result : settled (list WeatherApiResponse)) :
  let w := execAny steps (boot h storage now) in
  let called :=
    invokeMemoised fid (renderWithHooks fid (useWeather config) w).2 in
  other ≠ fid →
  (renderWithHooks other (useWeather config')
     (settle (length (tasks w)) result called)).1
  = (renderWithHooks other (useWeather config') w).1.
Proof.
  intros w called Hne.
  assert (Hc : coherent w) by apply coherent_execAny, coherent_boot.
  pose proof (called_coherent w fid config Hc) as Hcalled. fold called in Hcalled.
  pose proof (called_task w fid config Hc) as Htask. fold called in Htask.
  assert (Hcs : coherent (settle (length (tasks w)) result called))
    by apply (coherent_step called (Settle _ _) Hcalled).
  rewrite (render_coherent _ other config' Hcs).
  rewrite (render_coherent w other config' Hc). simpl. do 2 f_equal.
  rewrite <- (called_state w fid config Hc other). fold called.
  unfold settle. rewrite Htask. destruct result as [r|e]; simpl.
  - rewrite stateOf_withTask.
    rewrite (stateOf_setState called fid other r Hcalled).
    rewrite decide_False by congruence. reflexivity.
  - apply stateOf_withTask.
Qed.

(** The theorem for two components, the first one's fetch fulfilled. *)
Lemma components_are_isolated_witness :
  1 ≠ 0
  ∧ (renderWithHooks 1 (useWeather 1%positive)
       (settle 0 (Fulfilled [ApiResponse "sunny"])
          (invokeMemoised 0
             (renderWithHooks 0 (useWeather 1%positive)
                (execAny [Does (Render 1 1%positive)]
                   (boot {[1%positive := Sample.berlin]} ∅ 0))).2))).1
    = Normal {| response := None |}.
Proof.
  split; [discriminate|].
  apply (components_are_isolated {[1%positive := Sample.berlin]} ∅ 0
           [Does (Render 1 1%positive)] 0 1 1%positive 1%positive
           (Fulfilled [ApiResponse "sunny"])).
  discriminate.
Defined.

(** ** Invariants of traces *)

Lemma lastRendered_snoc (fid : nat) (steps : list Step) (s : Step) :
  lastRendered fid (steps ++ [s]) = tracked fid (lastRendered fid steps) s.
Proof. unfold lastRendered. rewrite fold_left_app. reflexivity. Qed.

Lemma callCount_snoc (steps : list Step) (s : Step) :
  callCount (steps ++ [s])
  = callCount steps + match s with Calls _ => 1 | Does _ => 0 end.
Proof.
  induction steps as [|s0 steps IH]; simpl.
  - destruct s; reflexivity.
  - destruct s0; rewrite IH; reflexivity.
Qed.

Lemma cellsFor_step (fid : nat) (latest : option loc) (w : World) (s : Step) :
  coherent w →
  cellsFor fid latest w →
  cellsFor fid (tracked fid latest s) (stepAny w s).
Proof.
  intros Hc Hcells.
  assert (Hsame : ∀ w', fibers w' = fibers w → cellsFor fid latest w').
  { intros w' Hfib. unfold cellsFor in *. rewrite Hfib. exact Hcells. }
  destruct s as [[f c|f|l o|k v|k|ms|tid result]|f]; simpl;
    try (apply Hsame; reflexivity).
  - rewrite (render_coherent w f c Hc). unfold cellsFor. simpl.
    case_decide as Heq.
    + subst f. rewrite lookup_insert_eq. eauto.
    + rewrite lookup_insert_ne by exact Heq. exact Hcells.
  - unfold cellsFor. simpl. case_decide as Heq.
    + subst f. apply lookup_delete_eq.
    + rewrite lookup_delete_ne by exact Heq. exact Hcells.
  - destruct (settle_effect w tid result Hc) as [-> | (call & f & Htid & ->)];
      [exact Hcells|].
    destruct result as [r|e]; [|apply Hsame; reflexivity].
    unfold cellsFor in *. simpl. rewrite lookup_alter.
    case_decide as Heq; [subst f|exact Hcells].
    destruct latest as [c|].
    + destruct Hcells as [s ->]. simpl. exists (Some r). reflexivity.
    + rewrite Hcells. reflexivity.
  - destruct (calls_effect w f Hc) as [[_ ->] | (s & c & _ & ->)];
      [exact Hcells|]. apply Hsame. reflexivity.
Qed.

Lemma fibers_track_latest
  (h : gmap loc object) (storage : gmap string string) (now : Z)
  (steps : list Step) (fid : nat) :
  cellsFor fid (lastRendered fid steps) (execAny steps (boot h storage now)).
Proof.
  induction steps as [|s steps IH] using rev_ind.
  - simpl. apply lookup_empty.
  - rewrite lastRendered_snoc, execAny_snoc.
    apply cellsFor_step; [apply coherent_execAny, coherent_boot | exact IH].
Qed.

Lemma lastRendered_in (fid : nat) (steps : list Step) (c : loc) :
  lastRendered fid steps = Some c → Does (Render fid c) ∈ steps.
Proof.
  induction steps as [|s steps IH] using rev_ind; [discriminate|].
  rewrite lastRendered_snoc. intros Hlast. apply elem_of_app.
  destruct s as [[f c'|f|l o|k v|k|ms|tid result]|f]; simpl in Hlast;
    try (left; apply IH; exact Hlast).
  - case_decide as Heq.
    + injection Hlast as ->. subst f. right. apply list_elem_of_singleton.
      reflexivity.
    + left. apply IH. exact Hlast.
  - case_decide; [discriminate|]. left. apply IH. exact Hlast.
Qed.

Lemma hookCells_config (fid : nat) (s s' : ResponseState) (c c' : loc) :
  hookCells fid s c = hookCells fid s' c' → c = c'.
Proof. intros H. injection H. intros. congruence. Qed.

(** X10. The callback a component holds is always the one for the
    configuration of its latest render: after any trace, the memoised
    callback and its key are those of the configuration last rendered since
    the component was (last) mounted, and calling it fetches for that
    configuration. For a component that is not mounted there is no callback,
    and a call fetches nothing. *)
Theorem callback_tracks_latest_render
  (h : gmap loc object) (storage : gmap string string) (now : Z)
  (steps : list Step) (fid : nat) :
  let w := execAny steps (boot h storage now) in
  memoised fid w
  = (λ c, (fetchCallback url c (setterOf fid), [VString url; VObject c]))
      <$> lastRendered fid steps
  ∧ fetchCalls (invokeMemoised fid w)
    = (fetchCalls w ++ match lastRendered fid steps with
                       | Some c => [(url, c)]
                       | None => []
                       end)%list.
Proof.
  intros w.
  assert (Hc : coherent w) by apply coherent_execAny, coherent_boot.
  pose proof (fibers_track_latest h storage now steps fid) as Hcells.
  fold w in Hcells. destruct (lastRendered fid steps) as [c|]; simpl in *.
  - destruct Hcells as [s Hcells]. split.
    + unfold memoised. rewrite Hcells. reflexivity.
    + rewrite (invokeMemoised_mounted w fid s c Hcells), invoke_fetchCallback.
      reflexivity.
  - split; unfold invokeMemoised, memoised; rewrite Hcells; simpl;
      [reflexivity|]. rewrite app_nil_r. reflexivity.
Qed.

(** X7. Whatever happens, every call of [fetchWeatherApi] goes to the one
    forecast endpoint, and its parameters are a configuration object that
    some render passed to the hook. *)
Theorem every_fetch_goes_to_the_endpoint
  (h : gmap loc object) (storage : gmap string string) (now : Z)
  (steps : list Step) :
  Forall (λ call, call.1 = "https://api.open-meteo.com/v1/forecast"
                  ∧ ∃ fid, Does (Render fid call.2) ∈ steps)
         (fetchCalls (execAny steps (boot h storage now))).
Proof.
  induction steps as [|s steps IH] using rev_ind; [apply Forall_nil_2|].
  rewrite execAny_snoc.
  assert (Hc : coherent (execAny steps (boot h storage now)))
    by apply coherent_execAny, coherent_boot.
  assert (Hold : Forall (λ call, call.1 = "https://api.open-meteo.com/v1/forecast"
                                 ∧ ∃ fid, Does (Render fid call.2) ∈ (steps ++ [s])%list)
                        (fetchCalls (execAny steps (boot h storage now)))).
  { eapply Forall_impl; [exact IH|]. intros call [Hurl [fid Hin]].
    split; [exact Hurl|]. exists fid. apply elem_of_app. by left. }
  destruct s as [e|f]; simpl.
  - destruct (step_keeps_calls _ e Hc) as [-> _]. exact Hold.
  - destruct (calls_effect _ f Hc) as [[_ ->] | (st & c & Hcells & ->)];
      [exact Hold|]. simpl.
    apply Forall_app. split; [exact Hold|].
    apply Forall_singleton. simpl. split; [reflexivity|].
    exists f. apply elem_of_app. left. apply lastRendered_in.
    pose proof (fibers_track_latest h storage now steps f) as Hlatest.
    destruct (lastRendered f steps) as [c'|]; simpl in Hlatest.
    + destruct Hlatest as [st' Hlatest]. rewrite Hcells in Hlatest.
      assert (Heq : hookCells f st c = hookCells f st' c') by congruence.
      apply hookCells_config in Heq. congruence.
    + rewrite Hcells in Hlatest. discriminate.
Qed.

(** X8. The hook never fetches on its own account: after any trace there
    are exactly as many calls of [fetchWeatherApi] as there are calls of
    async functions, and at most as many as the callbacks were called.
    Renders and settlements, rejections included, add none: a failed fetch
    is not retried. *)
Theorem no_fetch_without_a_call
  (h : gmap loc object) (storage : gmap string string) (now : Z)
  (steps : list Step) :
  let w := execAny steps (boot h storage now) in
  length (fetchCalls w) = length (tasks w)
  ∧ (length (fetchCalls w) ≤ callCount steps)%nat.
Proof.
  induction steps as [|s steps IH] using rev_ind; [simpl; auto|].
  simpl in *. rewrite execAny_snoc, callCount_snoc.
  assert (Hc : coherent (execAny steps (boot h storage now)))
    by apply coherent_execAny, coherent_boot.
  destruct IH as [Heq Hle]. destruct s as [e|f]; simpl.
  - destruct (step_keeps_calls _ e Hc) as [-> ->]. split; [exact Heq | lia].
  - destruct (calls_effect _ f Hc) as [[_ ->] | (st & c & _ & ->)];
      [split; [exact Heq | lia]|].
    simpl. rewrite !length_app. simpl. split; lia.
Qed.

Lemma state_provenance_step (w : World) (s : Step) (fid : nat)
  (data : list WeatherApiResponse) :
  coherent w →
  stateOf fid (stepAny w s) = Some data →
  stateOf fid w = Some data ∨ ∃ tid, s = Does (Settle tid (Fulfilled data)).
Proof.
  intros Hc.
  destruct s as [[f c|f|l o|k v|k|ms|tid result]|f]; simpl;
    try (intros H; left; exact H).
  - rewrite (stateOf_render w f fid c Hc). by left.
  - unfold stateOf at 1. simpl. rewrite lookup_delete.
    case_decide; [discriminate|]. by left.
  - destruct (settle_effect w tid result Hc) as [-> | (call & f & Htid & ->)];
      [by left|].
    destruct result as [r|e]; rewrite stateOf_withTask; [|by left].
    rewrite (stateOf_setState w f fid r Hc).
    case_decide; [|by left].
    destruct (fibers w !! fid); [|discriminate].
    intros [= ->]. right. eauto.
  - destruct (calls_effect w f Hc) as [[_ ->] | (st & c & _ & ->)];
      intros H; left; exact H.
Qed.

(** X9. The hook invents no data: whenever a call of [useWeather] returns a
    response, that response is the result with which some fetch was
    fulfilled earlier in the trace. *)
Theorem response_comes_from_a_fetch
  (h : gmap loc object) (storage : gmap string string) (now : Z)
  (steps : list Step) (fid : nat) (config : loc)
  (data : list WeatherApiResponse) :
  (renderWithHooks fid (useWeather config)
     (execAny steps (boot h storage now))).1
  = Normal {| response := Some data |} →
  ∃ tid, Does (Settle tid (Fulfilled data)) ∈ steps.
Proof.
  rewrite render_coherent by apply coherent_execAny, coherent_boot.
  simpl. intros [= Hstate]. revert Hstate.
  induction steps as [|s steps IH] using rev_ind.
  - unfold stateOf. simpl. rewrite lookup_empty. discriminate.
  - rewrite execAny_snoc. intros Hstate.
    assert (Hc : coherent (execAny steps (boot h storage now)))
      by apply coherent_execAny, coherent_boot.
    apply (state_provenance_step _ _ _ _ Hc) in Hstate as [Hold | [tid ->]].
    + destruct (IH Hold) as [tid Hin]. exists tid. apply elem_of_app. by left.
    + exists tid. apply elem_of_app. right. apply list_elem_of_singleton.
      reflexivity.
Qed.

(** The theorem on a trace that renders, calls the callback and fulfils the
    fetch. *)
Lemma response_comes_from_a_fetch_witness :
  (renderWithHooks 0 (useWeather 1%positive)
     (execAny [Does (Render 0 1%positive); Calls 0;
               Does (Settle 0 (Fulfilled [ApiResponse "sunny"]))]
        (boot {[1%positive := Sample.berlin]} ∅ 0))).1
  = Normal {| response := Some [ApiResponse "sunny"] |}
  ∧ ∃ tid, Does (Settle tid (Fulfilled [ApiResponse "sunny"]))
           ∈ [Does (Render 0 1%positive); Calls 0;
              Does (Settle 0 (Fulfilled [ApiResponse "sunny"]))].
Proof.
  split; [vm_compute; reflexivity|].
  apply (response_comes_from_a_fetch {[1%positive := Sample.berlin]} ∅ 0
           _ 0 1%positive).
  vm_compute. reflexivity.
Defined.

(** * Properties of the configuration interface *)

Lemma get_setProp_ne (k k' : string) (v : value) (o : object) :
  k' ≠ k → get k' (setProp k v o) = get k' o.
Proof.
  intros Hne. induction o as [|[k0 v0] o IH]; simpl.
  - rewrite decide_False by exact Hne. reflexivity.
  - destruct (decide (k = k0)) as [<- | Hne0]; simpl.
    + rewrite !decide_False by exact Hne. reflexivity.
    + destruct (decide (k' = k0)); [reflexivity | exact IH].
Qed.

Lemma conforms_setProp (k : string) (v : value) (o : object) :
  Config.conforms o = true →
  v ≠ VUndefined →
  (∀ f, In f Config.OpenMeteoForecastConfig → Config.name f = k →
        Config.inhabits (Config.type f) v = true) →
  Config.conforms (setProp k v o) = true.
Proof.
  unfold Config.conforms. rewrite !forallb_forall.
  intros Hconf Hv Htype f Hin. unfold Config.checkField.
  destruct (decide (Config.name f = k)) as [Heq | Hne].
  - rewrite Heq, get_setProp_eq. specialize (Htype f Hin Heq).
    destruct v; [contradiction|exact Htype..].
  - rewrite get_setProp_ne by exact Hne. apply (Hconf f Hin).
Qed.

Lemma conforms_field (o : object) (f : Config.field) :
  Config.conforms o = true →
  In f Config.OpenMeteoForecastConfig →
  Config.checkField o f = true.
Proof.
  unfold Config.conforms. rewrite forallb_forall. intros Hconf. apply Hconf.
Qed.

(** X11. Every object of the interface's type carries a number as
    [latitude] and as [longitude]; but the type bounds neither: with either
    coordinate replaced by any number whatever (91, an infinity, NaN) the
    object is still of the type, while a number outside the documented range
    breaks the documented constraints. *)
Theorem coordinates_are_typed_not_bounded (o : object) (x : float) :
  Config.conforms o = true →
  (∃ lat lon, get "latitude" o = VNumber lat ∧ get "longitude" o = VNumber lon)
  ∧ Config.conforms (setProp "latitude" (VNumber x) o) = true
  ∧ Config.conforms (setProp "longitude" (VNumber x) o) = true
  ∧ (Config.inRange (-90)%float 90%float (VNumber x) = false →
     Config.withinDocumentedConstraints (setProp "latitude" (VNumber x) o)
     = false)
  ∧ (Config.inRange (-180)%float 180%float (VNumber x) = false →
     Config.withinDocumentedConstraints (setProp "longitude" (VNumber x) o)
     = false).
Proof.
  intros Hconf. split; [|split; [|split; [|split]]].
  - pose proof (conforms_field o (Config.Field "latitude" Config.TNumber false None)
                  Hconf ltac:(simpl; tauto)) as Hlat.
    pose proof (conforms_field o (Config.Field "longitude" Config.TNumber false None)
                  Hconf ltac:(simpl; tauto)) as Hlon.
    unfold Config.checkField in Hlat, Hlon. simpl in Hlat, Hlon.
    destruct (get "latitude" o) as [|lat| | |]; try discriminate.
    destruct (get "longitude" o) as [|lon| | |]; try discriminate.
    eauto.
  - apply (conforms_setProp _ _ o Hconf); [discriminate|].
    intros f Hin Hname. simpl in Hin.
    repeat destruct Hin as [<- | Hin]; try discriminate Hname;
      try reflexivity; contradiction.
  - apply (conforms_setProp _ _ o Hconf); [discriminate|].
    intros f Hin Hname. simpl in Hin.
    repeat destruct Hin as [<- | Hin]; try discriminate Hname;
      try reflexivity; contradiction.
  - intros Hout. unfold Config.withinDocumentedConstraints.
    rewrite get_setProp_eq, Hout. reflexivity.
  - intros Hout. unfold Config.withinDocumentedConstraints.
    rewrite get_setProp_eq, Hout. rewrite andb_false_r. reflexivity.
Qed.

(** The theorem at the scenario's configuration and 91 degrees. *)
Lemma coordinates_are_typed_not_bounded_witness :
  Config.conforms Sample.berlin = true
  ∧ Config.conforms (setProp "latitude" (VNumber 91%float) Sample.berlin) = true.
Proof.
  split; [reflexivity|].
  apply (coordinates_are_typed_not_bounded Sample.berlin 91%float).
  reflexivity.
Defined.

(** X12. The documented defaults agree with the declared types: setting a
    property to the default its doc comment gives keeps an object of the
    interface's type in the type. *)
Theorem documented_default_is_well_typed (o : object) (k : string) (d : value) :
  Config.conforms o = true →
  Config.documentedDefault k = Some d →
  Config.conforms (setProp k d o) = true.
Proof.
  intros Hconf Hdefault.
  apply (conforms_setProp k d o Hconf);
    [exact (documentedDefault_defined k d Hdefault)|].
  intros f Hin Hname. simpl in Hin.
  repeat destruct Hin as [<- | Hin]; try contradiction;
    simpl in Hname; subst k; vm_compute in Hdefault;
    try discriminate Hdefault;
    injection Hdefault as <-; vm_compute; reflexivity.
Qed.

(** The theorem at [timezone], whose documented default is ["auto"]. *)
Lemma documented_default_is_well_typed_witness :
  Config.conforms Sample.berlin = true
  ∧ Config.documentedDefault "timezone" = Some (VString "auto")
  ∧ Config.conforms (setProp "timezone" (VString "auto") Sample.berlin) = true.
Proof.
  split; [reflexivity|]. split; [reflexivity|].
  apply (documented_default_is_well_typed Sample.berlin "timezone"
           (VString "auto"));
    reflexivity.
Defined.

(** X13. The doc comment of [models] promises a comma-separated list of
    weather models (its example is ["ECMWF_IFS,FMI_HIRLAM"]), but the
    property's type is one model name: no object whose [models] is a string
    with a comma in it is of the interface's type. *)
Theorem models_admits_no_list (o : object) (s : string) :
  get "models" o = VString s →
  hasComma s = true →
  Config.conforms o = false.
Proof.
  intros Hget Hcomma. apply not_true_is_false. intros Hconf.
  pose proof (conforms_field o
                (Config.Field "models" Config.OpenMeteoWeatherModel true
                   (Some (VString "auto")))
                Hconf ltac:(simpl; tauto)) as Hmodels.
  unfold Config.checkField in Hmodels. simpl in Hmodels.
  rewrite Hget in Hmodels. simpl in Hmodels.
  apply bool_decide_eq_true in Hmodels.
  repeat (apply elem_of_cons in Hmodels as [-> | Hmodels];
          [vm_compute in Hcomma; discriminate|]).
  by apply elem_of_nil in Hmodels.
Qed.

(** The theorem at the doc comment's own example. *)
Lemma models_admits_no_list_witness :
  get "models" (setProp "models" (VString "ECMWF_IFS,FMI_HIRLAM") Sample.berlin)
  = VString "ECMWF_IFS,FMI_HIRLAM"
  ∧ hasComma "ECMWF_IFS,FMI_HIRLAM" = true
  ∧ Config.conforms
      (setProp "models" (VString "ECMWF_IFS,FMI_HIRLAM") Sample.berlin)
    = false.
Proof.
  split; [reflexivity|]. split; [reflexivity|].
  apply (models_admits_no_list _ "ECMWF_IFS,FMI_HIRLAM"); reflexivity.
Defined.
